(** * joycontrol/protocol.go: the protocol engine of the emulated controller

    A shallow embedding of [src/joycontrol/protocol.go]: the per-connection
    state ([Protocol]), the subcommand dispatcher and its handlers, the timer
    refresh, the output reader loop, and the three goroutines started by
    [Setup] running over the buffered channel [p.queue]. *)

From Stdlib Require Import ZArith List Bool Lia.
Import ListNotations.
Open Scope Z_scope.

(** ** The report codec, as the engine sees it *)

Module Codec.

(** Modelled from the spec: the constant declarations of the subcommand ids
    are not in src/.  The ten constants named by the [switch] of
    [processSubcommandReport] are the constructors (Go rejects a switch with
    two equal constant cases, so they are pairwise distinct); every other
    one-byte id is [UnknownSubcommand]. *)
Inductive Subcommand : Type :=
| RequestDeviceInfo
| SetInputReportMode
| TriggerButtonsElapsedTime
| SetShipmentLowPowerState
| SpiFlashRead
| SetNfcMcuConfig
| SetNfcMcuState
| SetPlayerLights
| EnableImu
| EnableVibration
| UnknownSubcommand (id : Z).

(** Modelled from the spec: the ids of output reports, not in src/.  The
    four ids named by the [switch] of [readOutputReport], and the others. *)
Inductive OutputReportId : Type :=
| RumbleAndSubcommand
| UpdateNFCPacket
| RumbleOnly
| RequestNFCData
| UnknownOutputReportId (id : Z).

(** Modelled from the spec: the ids of input reports, not in src/; the
    engine uses these two. *)
Inductive InputReportId : Type :=
| SubcommandReplies
| StandardFullMode.

(** Modelled from the spec: type [OutputReport] and its decoder are not in
    src/.  The engine reads a decoded report through [id],
    [getSubcommand] and [getSubcommandData].  The payload has the type the
    handlers take it at, a byte slice ([[]byte]).  Frames have a fixed size
    and the codec rejects data that is too short before anything is
    dispatched, so the payload of a decoded frame is not empty; the record
    does not enforce this, and a statement that depends on it says so. *)
Record OutputReport : Type := mkOutputReport {
  id : OutputReportId;
  getSubcommand : Subcommand;
  getSubcommandData : list Z
}.

(** Modelled from the spec: the acknowledgment builders [ack*] are not in
    src/.  An acknowledgment is represented by the builder that was called
    and the argument it was given. *)
Inductive Ack : Type :=
| ackSetInputReportMode
| ackTriggerButtonsElapsedTime
| ackDeviceInfo (macAddr : list Z)
| ackSetShipmentLowPowerState
| ackSpiFlashRead (data : list Z)
| ackSetNfcMcuConfig
| ackSetNfcMcuState
| ackSetPlayerLights
| ackEnableImu
| ackEnableVibration.

(** Modelled from the spec: type [InputReport], [AllocStandardReport] and
    the setters [setReportId], [setImuData], [fillStandardData] are not in
    src/ (the byte layout belongs to the codec).  A report is represented
    by what the engine's builder calls wrote into it: each setter records
    its arguments in a field of its own, and a freshly allocated standard
    report has none of them set. *)
Record InputReport : Type := mkInputReport {
  reportId : option InputReportId;
  imuData : option bool;
  standardData : option (Z * bool);
  ackData : option Ack
}.

Definition AllocStandardReport : InputReport :=
  mkInputReport None None None None.

Definition setReportId (i : InputReportId) (r : InputReport) : InputReport :=
  mkInputReport (Some i) (imuData r) (standardData r) (ackData r).

Definition setImuData (enabled : bool) (r : InputReport) : InputReport :=
  mkInputReport (reportId r) (Some enabled) (standardData r) (ackData r).

Definition fillStandardData (elapsed : Z) (deviceInfoRequired : bool)
           (r : InputReport) : InputReport :=
  mkInputReport (reportId r) (imuData r)
                (Some (elapsed, deviceInfoRequired)) (ackData r).

Definition ack (a : Ack) (r : InputReport) : InputReport :=
  mkInputReport (reportId r) (imuData r) (standardData r) (Some a).

(** The result of [p.output.load(p.itr)]: a decoded report, or one of the
    errors [readOutputReport] tells apart. *)
Inductive LoadResult : Type :=
| Loaded (r : OutputReport)
| EAGAIN
| errEmptyData
| errBadLengthData
| errMalformedData
| errOther.

End Codec.
Import Codec.

(** ** package time *)

Module Time.

(** A [time.Time] is the number of nanoseconds since the zero Time; a
    [time.Duration] is an int64 count of nanoseconds. *)
Definition minDuration : Z := - 2 ^ 63.
Definition maxDuration : Z := 2 ^ 63 - 1.
Definition Second : Z := 1000000000.

(** [t.Sub(u)]: the difference, saturated to the range of a Duration. *)
Definition Sub (t u : Z) : Z :=
  let d := t - u in
  if d <? minDuration then minDuration
  else if maxDuration <? d then maxDuration
  else d.

End Time.

(** ** type Protocol *)

(** The fields of [Protocol] that hold values.  The channel [queue] is part
    of the shared state of the goroutines ([Sys] below), and the buffer
    [output] is represented by the report a successful load yields. *)
Record Protocol : Type := mkProtocol {
  lastTime : Z;
  elapsed : Z;
  reportReceived : bool;
  deviceInfoRequired : bool;
  imuEnabled : bool;
  itr : Z;
  ctrl : Z;
  macAddr : list Z
}.

Definition set_lastTime (v : Z) (p : Protocol) : Protocol :=
  mkProtocol v (elapsed p) (reportReceived p) (deviceInfoRequired p)
             (imuEnabled p) (itr p) (ctrl p) (macAddr p).

Definition set_elapsed (v : Z) (p : Protocol) : Protocol :=
  mkProtocol (lastTime p) v (reportReceived p) (deviceInfoRequired p)
             (imuEnabled p) (itr p) (ctrl p) (macAddr p).

Definition set_reportReceived (v : bool) (p : Protocol) : Protocol :=
  mkProtocol (lastTime p) (elapsed p) v (deviceInfoRequired p)
             (imuEnabled p) (itr p) (ctrl p) (macAddr p).

Definition set_deviceInfoRequired (v : bool) (p : Protocol) : Protocol :=
  mkProtocol (lastTime p) (elapsed p) (reportReceived p) v
             (imuEnabled p) (itr p) (ctrl p) (macAddr p).

Definition set_imuEnabled (v : bool) (p : Protocol) : Protocol :=
  mkProtocol (lastTime p) (elapsed p) (reportReceived p) (deviceInfoRequired p)
             v (itr p) (ctrl p) (macAddr p).

(** [NewProtocol]: every value field has Go's zero value. *)
Definition NewProtocol : Protocol :=
  mkProtocol 0 0 false false false 0 0 [].

(** The assignments of [Setup]. *)
Definition Setup_fields (itr' ctrl' : Z) (macAddr' : list Z) (p : Protocol)
  : Protocol :=
  mkProtocol (lastTime p) (elapsed p) (reportReceived p) (deviceInfoRequired p)
             (imuEnabled p) itr' ctrl' macAddr'.

(** ** Engine code: state, panics and the trace of what it does *)

(** What a run of engine code does that can be seen from outside, in order:
    a send on [p.queue], and a call of the subcommand dispatcher. *)
Inductive Event : Type :=
| EvSend (r : InputReport)
| EvDispatch (report : OutputReport).

(** A run either completes or panics (Go's run-time panic on an index out of
    range, which ends the process). *)
Inductive Res (A : Type) : Type :=
| Ok (a : A)
| Panic.
Arguments Ok {A} a.
Arguments Panic {A}.

(** Engine code threads the [Protocol] it mutates and appends to the trace. *)
Definition M (A : Type) : Type := Protocol -> Res (A * Protocol * list Event).

Definition ret {A} (a : A) : M A := fun p => Ok (a, p, []).

Definition bind {A B} (m : M A) (k : A -> M B) : M B :=
  fun p =>
    match m p with
    | Panic => Panic
    | Ok (a, p1, t1) =>
        match k a p1 with
        | Panic => Panic
        | Ok (b, p2, t2) => Ok (b, p2, t1 ++ t2)
        end
    end.

Definition get : M Protocol := fun p => Ok (p, p, []).
Definition modify (f : Protocol -> Protocol) : M unit := fun p => Ok (tt, f p, []).
Definition emit (e : Event) : M unit := fun p => Ok (tt, p, [e]).
Definition panic {A} : M A := fun _ => Panic.

(** [p.queue <- report] *)
Definition send (report : InputReport) : M unit := emit (EvSend report).

Declare Scope engine_scope.
Delimit Scope engine_scope with engine.
Notation "x <- c ;; k" := (bind c (fun x => k))
  (at level 61, c at next level, right associativity) : engine_scope.
Notation "c ;; k" := (bind c (fun _ => k))
  (at level 61, right associativity) : engine_scope.
Open Scope engine_scope.

(** The reports sent, and the dispatcher calls, of a trace. *)
Fixpoint sent (t : list Event) : list InputReport :=
  match t with
  | [] => []
  | EvSend r :: t' => r :: sent t'
  | EvDispatch _ :: t' => sent t'
  end.

Fixpoint dispatched (t : list Event) : list OutputReport :=
  match t with
  | [] => []
  | EvSend _ :: t' => dispatched t'
  | EvDispatch o :: t' => o :: dispatched t'
  end.

(** [data[0]] on a slice: an index out of range panics. *)
Definition index0 (data : list Z) : M Z :=
  match data with
  | [] => panic
  | b :: _ => ret b
  end.

(** ** The engine *)

Definition processStandardFullReport : M unit :=
  p <- get ;;
  let report := AllocStandardReport in
  let report := setReportId StandardFullMode report in
  let report := setImuData (imuEnabled p) report in
  send report.

(** The common opening of every [answer*] handler. *)
Definition standardReply (p : Protocol) : InputReport :=
  let report := AllocStandardReport in
  let report := setReportId SubcommandReplies report in
  fillStandardData (elapsed p) (deviceInfoRequired p) report.

Definition answerSetMode (data : list Z) : M unit :=
  p <- get ;;
  send (ack ackSetInputReportMode (standardReply p)).

Definition anwserTriggerButtonsElapsedTime : M unit :=
  p <- get ;;
  send (ack ackTriggerButtonsElapsedTime (standardReply p)).

Definition answerDeviceInfo : M unit :=
  modify (set_deviceInfoRequired true) ;;
  p <- get ;;
  send (ack (ackDeviceInfo (macAddr p)) (standardReply p)).

Definition answerSetShipmentState : M unit :=
  p <- get ;;
  send (ack ackSetShipmentLowPowerState (standardReply p)).

Definition answerSpiRead (data : list Z) : M unit :=
  p <- get ;;
  send (ack (ackSpiFlashRead data) (standardReply p)).

Definition answerSetNfcMcuConfig (data : list Z) : M unit :=
  p <- get ;;
  send (ack ackSetNfcMcuConfig (standardReply p)).

Definition answerSetNfcMcuState (data : list Z) : M unit :=
  p <- get ;;
  send (ack ackSetNfcMcuState (standardReply p)).

Definition answerSetPlayerLights : M unit :=
  p <- get ;;
  send (ack ackSetPlayerLights (standardReply p)).

Definition answerEnableImu (data : list Z) : M unit :=
  b <- index0 data ;;
  (if b =? 1 then modify (set_imuEnabled true) else ret tt) ;;
  p <- get ;;
  send (ack ackEnableImu (standardReply p)).

Definition answerEnableVibration : M unit :=
  p <- get ;;
  send (ack ackEnableVibration (standardReply p)).

(** [updateTimer], with [now] the value of [time.Now()].  Go's [/] on
    integers truncates toward zero ([Z.quot]); [&] is [Z.land]. *)
Definition updateTimer (now : Z) : M unit :=
  p <- get ;;
  let duration := Time.Sub now (lastTime p) in
  modify (set_elapsed (Z.land (Z.quot duration 4) 255)) ;;
  modify (set_elapsed 255) ;;
  modify (set_lastTime now).

Definition processSubcommandReport (now : Z) (report : OutputReport) : M unit :=
  emit (EvDispatch report) ;;
  updateTimer now ;;
  let subcommand := getSubcommand report in
  match subcommand with
  | RequestDeviceInfo => answerDeviceInfo
  | SetInputReportMode => answerSetMode (getSubcommandData report)
  | TriggerButtonsElapsedTime => anwserTriggerButtonsElapsedTime
  | SetShipmentLowPowerState => answerSetShipmentState
  | SpiFlashRead => answerSpiRead (getSubcommandData report)
  | SetNfcMcuConfig => answerSetNfcMcuConfig (getSubcommandData report)
  | SetNfcMcuState => answerSetNfcMcuState (getSubcommandData report)
  | SetPlayerLights => answerSetPlayerLights
  | EnableImu => answerEnableImu (getSubcommandData report)
  | EnableVibration => answerEnableVibration
  | UnknownSubcommand _ => processStandardFullReport
  end.

(** The dispatcher run on a sequence of subcommand reports, each with the
    time at which it is dispatched. *)
Fixpoint processSubcommandReports (rs : list (Z * OutputReport)) : M unit :=
  match rs with
  | [] => ret tt
  | (now, report) :: rs' =>
      processSubcommandReport now report ;; processSubcommandReports rs'
  end.

(** ** The output reader loop *)

(** How one turn of the [for] loop ends: [continue] (or falling off the end
    of the body), or [return]. *)
Inductive Flow : Type :=
| Continue
| Return.

(** The body of the loop of [readOutputReport], for the result [res] of its
    load. *)
Definition readOutputReport_body (now : Z) (res : LoadResult) : M Flow :=
  match res with
  | EAGAIN => ret Continue
  | errEmptyData | errBadLengthData | errMalformedData =>
      processStandardFullReport ;; ret Return
  | errOther => ret Return
  | Loaded output =>
      modify (set_reportReceived true) ;;
      match id output with
      | RumbleAndSubcommand => processSubcommandReport now output
      | UpdateNFCPacket => ret tt
      | RumbleOnly => ret tt
      | RequestNFCData => ret tt
      | UnknownOutputReportId _ => ret tt
      end ;;
      ret Continue
  end.

Inductive Status : Type :=
| Running
| Returned
| Panicked.

(** A run of the loop: whether it is still running, the state, the trace and
    the number of loads issued. *)
Record Run : Type := mkRun {
  status : Status;
  state : Protocol;
  trace : list Event;
  reads : nat
}.

(** [readOutputReport] against the results of the successive loads: the loop
    consumes one result per turn and is [Running] when they are used up. *)
Fixpoint readOutputReport (inputs : list (Z * LoadResult)) (p : Protocol) : Run :=
  match inputs with
  | [] => mkRun Running p [] 0
  | (now, res) :: rest =>
      match readOutputReport_body now res p with
      | Panic => mkRun Panicked p [] 1
      | Ok (Return, p', t) => mkRun Returned p' t 1
      | Ok (Continue, p', t) =>
          let r := readOutputReport rest p' in
          mkRun (status r) (state r) (t ++ trace r) (S (reads r))
      end
  end.

(** The unsolicited standard report built by [processStandardFullReport]. *)
Definition standardFullReport (imu : bool) : InputReport :=
  setImuData imu (setReportId StandardFullMode AllocStandardReport).

Definition recognized (s : Subcommand) : bool :=
  match s with
  | UnknownSubcommand _ => false
  | _ => true
  end.

Definition isRequestDeviceInfo (s : Subcommand) : bool :=
  match s with
  | RequestDeviceInfo => true
  | _ => false
  end.

Definition isFramingError (res : LoadResult) : bool :=
  match res with
  | errEmptyData | errBadLengthData | errMalformedData => true
  | _ => false
  end.

(** The tick count as the specification words it: the time since the last
    refresh, in units of 4, truncated to 8 bits. *)
Definition elapsedTicks_spec (now last : Z) : Z :=
  Z.land (Z.quot (Time.Sub now last) 4) 255.

(** ** The goroutines of [Setup] over the channel [p.queue] *)

(** [make(chan *InputReport, 5)] *)
Definition queueCap : nat := 5.

Inductive Producer : Type :=
| Bootstrap
| Reader.

(** Where [sendEmptyReport] stands: before [time.NewTicker], waiting on
    [ticker.C] (which delivers at [deadline]), at its send on [p.queue] with
    the report built, or past [ticker.Stop()]. *)
Inductive BootPc : Type :=
| BootStart
| BootWaiting (deadline : Z)
| BootSending (pending : list InputReport)
| BootDone.

(** Where [readOutputReport] stands: at the load that opens a turn of the
    loop, at the send of a turn (which then ends by [k]), returned, or
    stopped by a panic. *)
Inductive ReaderPc : Type :=
| ReaderLoop
| ReaderSending (pending : list InputReport) (k : Flow)
| ReaderReturned
| ReaderPanicked.

(** The shared state: the [Protocol], the buffer of the channel (oldest
    first), the clock, the two producers, and two histories: every report
    put into the channel with its producer, and every report taken out of it
    by [processInputQueue] with whether [unix.Write] succeeded. *)
Record Sys : Type := mkSys {
  proto : Protocol;
  queue : list InputReport;
  clock : Z;
  boot : BootPc;
  reader : ReaderPc;
  enqueued : list (Producer * InputReport);
  written : list (InputReport * bool)
}.

(** [Setup] at time [now]: when [unix.SetNonblock] fails it returns before
    any goroutine is started. *)
Definition Setup (setNonblock_ok : bool) (now itr' ctrl' : Z) (macAddr' : list Z)
           (p : Protocol) : option Sys :=
  if setNonblock_ok
  then Some (mkSys (Setup_fields itr' ctrl' macAddr' p) [] now
                   BootStart ReaderLoop [] [])
  else None.

(** The atomic actions of the goroutines and of the environment. *)
Inductive Label : Type :=
| Tick (d : Z)
| BootNewTicker
| BootFire
| BootSend
| BootStop
| ReaderLoad (res : LoadResult)
| ReaderSend
| ReaderNext
| WriterWrite (ok : bool).

(** A send on the channel goes through when the buffer has room; otherwise
    the sender stays where it is. *)
Definition chanSend (who : Producer) (r : InputReport) (s : Sys)
           (boot' : BootPc) (reader' : ReaderPc) : option Sys :=
  if (length (queue s) <? queueCap)%nat
  then Some (mkSys (proto s) (queue s ++ [r]) (clock s) boot' reader'
                   (enqueued s ++ [(who, r)]) (written s))
  else None.

Definition stepBoot (l : Label) (s : Sys) : option Sys :=
  match l, boot s with
  | BootNewTicker, BootStart =>
      Some (mkSys (proto s) (queue s) (clock s)
                  (BootWaiting (clock s + Time.Second)) (reader s)
                  (enqueued s) (written s))
  | BootFire, BootWaiting deadline =>
      if deadline <=? clock s then
        (* the receiver of [processStandardFullReport] is a copy *)
        match processStandardFullReport (proto s) with
        | Ok (_, _, t) =>
            Some (mkSys (proto s) (queue s) (clock s) (BootSending (sent t))
                        (reader s) (enqueued s) (written s))
        | Panic => None
        end
      else None
  | BootSend, BootSending (r :: rest) =>
      chanSend Bootstrap r s (BootSending rest) (reader s)
  | BootStop, BootSending [] =>
      Some (mkSys (proto s) (queue s) (clock s) BootDone (reader s)
                  (enqueued s) (written s))
  | _, _ => None
  end.

Definition stepReader (l : Label) (s : Sys) : option Sys :=
  match l, reader s with
  | ReaderLoad res, ReaderLoop =>
      match readOutputReport_body (clock s) res (proto s) with
      | Ok (k, p', t) =>
          Some (mkSys p' (queue s) (clock s) (boot s)
                      (ReaderSending (sent t) k) (enqueued s) (written s))
      | Panic =>
          Some (mkSys (proto s) (queue s) (clock s) (boot s) ReaderPanicked
                      (enqueued s) (written s))
      end
  | ReaderSend, ReaderSending (r :: rest) k =>
      chanSend Reader r s (boot s) (ReaderSending rest k)
  | ReaderNext, ReaderSending [] k =>
      Some (mkSys (proto s) (queue s) (clock s) (boot s)
                  (match k with
                   | Continue => ReaderLoop
                   | Return => ReaderReturned
                   end)
                  (enqueued s) (written s))
  | _, _ => None
  end.

(** [processInputQueue]: receive the oldest report (the receive waits while
    the buffer is empty), write it, log, and loop whether or not the write
    failed. *)
Definition stepWriter (ok : bool) (s : Sys) : option Sys :=
  match queue s with
  | [] => None
  | r :: q =>
      Some (mkSys (proto s) q (clock s) (boot s) (reader s)
                  (enqueued s) (written s ++ [(r, ok)]))
  end.

(** One action of a running process; [None] when it is not enabled. *)
Definition stepAlive (l : Label) (s : Sys) : option Sys :=
  match l with
  | Tick d =>
      if 0 <=? d
      then Some (mkSys (proto s) (queue s) (clock s + d) (boot s)
                       (reader s) (enqueued s) (written s))
      else None
  | BootNewTicker | BootFire | BootSend | BootStop => stepBoot l s
  | ReaderLoad _ | ReaderSend | ReaderNext => stepReader l s
  | WriterWrite ok => stepWriter ok s
  end.

(** A panic ends the process, so nothing runs after it. *)
Definition step (l : Label) (s : Sys) : option Sys :=
  match reader s with
  | ReaderPanicked => None
  | _ => stepAlive l s
  end.

Fixpoint exec (ls : list Label) (s : Sys) : option Sys :=
  match ls with
  | [] => Some s
  | l :: ls' =>
      match step l s with
      | Some s' => exec ls' s'
      | None => None
      end
  end.

(** The states the engine can be in after a successful [Setup] of a new
    [Protocol]. *)
Definition reachable (s : Sys) : Prop :=
  exists now itr' ctrl' macAddr' s0 ls,
    Setup true now itr' ctrl' macAddr' NewProtocol = Some s0 /\
    exec ls s0 = Some s.

(** The reports a producer has put into the channel. *)
Fixpoint enqueuedBy (who : Producer) (h : list (Producer * InputReport))
  : list InputReport :=
  match h with
  | [] => []
  | (Bootstrap, r) :: h' =>
      match who with
      | Bootstrap => r :: enqueuedBy who h'
      | Reader => enqueuedBy who h'
      end
  | (Reader, r) :: h' =>
      match who with
      | Bootstrap => enqueuedBy who h'
      | Reader => r :: enqueuedBy who h'
      end
  end.

Definition isSend (l : Label) : bool :=
  match l with
  | BootSend | ReaderSend => true
  | _ => false
  end.

Definition isWrite (l : Label) : bool :=
  match l with
  | WriterWrite _ => true
  | _ => false
  end.

(** The channel never holds more than its capacity, and hands reports out
    in the order they were put in. *)
Definition queueInv (s : Sys) : Prop :=
  (length (queue s) <= queueCap)%nat /\
  map snd (enqueued s) = map fst (written s) ++ queue s.

(** Where [sendEmptyReport] stands against what it has put into the channel,
    for a [Setup] at time [t0]. *)
Definition bootInv (t0 : Z) (s : Sys) : Prop :=
  t0 <= clock s /\
  match boot s with
  | BootStart => enqueuedBy Bootstrap (enqueued s) = []
  | BootWaiting deadline =>
      enqueuedBy Bootstrap (enqueued s) = [] /\ t0 + Time.Second <= deadline
  | BootSending pending =>
      t0 + Time.Second <= clock s /\
      exists imu,
        (pending = [standardFullReport imu] /\
         enqueuedBy Bootstrap (enqueued s) = []) \/
        (pending = [] /\
         enqueuedBy Bootstrap (enqueued s) = [standardFullReport imu])
  | BootDone =>
      t0 + Time.Second <= clock s /\
      exists imu, enqueuedBy Bootstrap (enqueued s) = [standardFullReport imu]
  end.

(** ** Sample inputs *)

Definition sampleMac : list Z := [170; 187; 204; 221; 238; 255].

(** A host frame carrying a subcommand. *)
Definition hostReport (s : Subcommand) (data : list Z) : OutputReport :=
  mkOutputReport RumbleAndSubcommand s data.

(** One turn of the reader loop on a frame that is answered. *)
Definition readerTurn (s : Subcommand) (data : list Z) : list Label :=
  [ReaderLoad (Loaded (hostReport s data)); ReaderSend; ReaderNext].

(** The bootstrap ticker fires, then the host sends five frames that are
    answered while nothing is written: the channel is full and the bootstrap
    report is still to be sent. *)
Definition fullQueueSchedule : list Label :=
  [BootNewTicker; Tick Time.Second; BootFire]
    ++ readerTurn RequestDeviceInfo []
    ++ readerTurn SetShipmentLowPowerState [0]
    ++ readerTurn SpiFlashRead [0; 96; 0; 0; 16]
    ++ readerTurn SetInputReportMode [48]
    ++ readerTurn EnableImu [1].

(** The bootstrap task runs to its end, then the host asks for the device
    info. *)
Definition bootThenDeviceInfo : list Label :=
  [BootNewTicker; Tick Time.Second; BootFire; BootSend; BootStop;
   WriterWrite true]
    ++ readerTurn RequestDeviceInfo [].

(** * Properties *)

(** ** The dispatcher and its handlers *)

(** Unfolds a run of engine code down to its result, leaving the arithmetic
    of the timer alone. *)
Ltac run_engine :=
  cbv -[Z.land Z.quot Time.Sub Z.eqb Z.add Z.leb orb andb app length].

Definition isEnableImu (s : Subcommand) : bool :=
  match s with
  | EnableImu => true
  | _ => false
  end.

(** ** Observations on loads, runs and reports *)

Definition isLoaded (res : LoadResult) : bool :=
  match res with
  | Loaded _ => true
  | _ => false
  end.

(** The loads that neither end the loop nor reach the dispatcher: EAGAIN,
    and a decoded report whose id is not [RumbleAndSubcommand]. *)
Definition quiet (res : LoadResult) : bool :=
  match res with
  | EAGAIN => true
  | Loaded output =>
      match id output with
      | RumbleAndSubcommand => false
      | _ => true
      end
  | _ => false
  end.

(** What a run of engine code leaves behind: the state and the reports
    sent, or nothing after a panic. *)
Definition outcome {A} (x : Res (A * Protocol * list Event))
  : option (Protocol * list InputReport) :=
  match x with
  | Ok (_, p, t) => Some (p, sent t)
  | Panic => None
  end.

(** Whether a dispatched frame is an [EnableImu] whose payload byte 0 is 1. *)
Definition setsImu (x : Z * OutputReport) : bool :=
  isEnableImu (getSubcommand (snd x))
  && (hd 0 (getSubcommandData (snd x)) =? 1).

(** The two shapes of report the engine builds: the reply of an [answer*]
    handler (tagged, with header and acknowledgment, no motion-sensor data)
    and the plain report of [processStandardFullReport]. *)
Definition isSubcommandReply (r : InputReport) : Prop :=
  reportId r = Some SubcommandReplies /\
  imuData r = None /\
  (exists di, standardData r = Some (255, di)) /\
  ackData r <> None.

Definition isStandardFull (r : InputReport) : Prop :=
  exists imu, r = standardFullReport imu.

Definition engineReport (r : InputReport) : Prop :=
  isSubcommandReply r \/ isStandardFull r.

(** The reply to a dispatched frame has the shape its subcommand asks for. *)
Definition answers (x : Z * OutputReport) (r : InputReport) : Prop :=
  if recognized (getSubcommand (snd x))
  then isSubcommandReply r
  else isStandardFull r.

Definition pendingBoot (b : BootPc) : list InputReport :=
  match b with
  | BootSending pending => pending
  | _ => []
  end.

Definition pendingReader (r : ReaderPc) : list InputReport :=
  match r with
  | ReaderSending pending _ => pending
  | _ => []
  end.

(** Every report in the channel, on its way into it, or already taken out
    of it, is one the engine builds, and a turn of the reader has at most
    one to send. *)
Definition reportsInv (s : Sys) : Prop :=
  Forall engineReport (queue s) /\
  Forall engineReport (map snd (enqueued s)) /\
  Forall engineReport (map fst (written s)) /\
  Forall engineReport (pendingBoot (boot s)) /\
  Forall engineReport (pendingReader (reader s)) /\
  (length (pendingReader (reader s)) <= 1)%nat.

(** The timer: [elapsed] is Go's zero value or the constant of
    [updateTimer], and [lastTime] is not in the future. *)
Definition timerInv (s : Sys) : Prop :=
  (elapsed (proto s) = 0 \/ elapsed (proto s) = 255) /\
  lastTime (proto s) <= clock s.

(** The values [Setup] stored. *)
Definition setupInv (itr' ctrl' : Z) (macAddr' : list Z) (s : Sys) : Prop :=
  itr (proto s) = itr' /\ ctrl (proto s) = ctrl' /\
  macAddr (proto s) = macAddr'.

(** The refresh of the timer always completes, sends nothing, and leaves
    255 in [elapsed]. *)
Lemma updateTimer_run (now : Z) (p : Protocol) :
  updateTimer now p = Ok (tt, set_lastTime now (set_elapsed 255 p), []).
Proof. reflexivity. Qed.

(** A dispatch completes unless it is an [EnableImu] with an empty payload;
    when it completes it made one send, and it changed the state as
    described. *)
Lemma processSubcommandReport_run (now : Z) (report : OutputReport) (p : Protocol) :
  (getSubcommand report = EnableImu -> getSubcommandData report <> []) ->
  exists p' r,
    processSubcommandReport now report p
      = Ok (tt, p', [EvDispatch report; EvSend r]) /\
    lastTime p' = now /\
    elapsed p' = 255 /\
    reportReceived p' = reportReceived p /\
    deviceInfoRequired p'
      = deviceInfoRequired p || isRequestDeviceInfo (getSubcommand report) /\
    imuEnabled p'
      = imuEnabled p
        || (isEnableImu (getSubcommand report)
            && (hd 0 (getSubcommandData report) =? 1)) /\
    itr p' = itr p /\ ctrl p' = ctrl p /\ macAddr p' = macAddr p /\
    (if recognized (getSubcommand report)
     then reportId r = Some SubcommandReplies /\
          standardData r = Some (elapsed p', deviceInfoRequired p') /\
          ackData r <> None
     else r = standardFullReport (imuEnabled p)).
Proof.
  destruct report as [i s d], p as [lt e rr di im it ct mac].
  destruct s; intros Hd;
    try (eexists; eexists; split; [reflexivity|];
         cbn; rewrite ?orb_false_r, ?orb_true_r;
         repeat split; try reflexivity; discriminate).
  destruct d as [|b d]; [exfalso; apply Hd; reflexivity|].
  run_engine. destruct (b =? 1);
    eexists; eexists; (split; [reflexivity|]);
    cbn; rewrite ?orb_false_r, ?orb_true_r;
    repeat split; try reflexivity; discriminate.
Qed.

Lemma processSubcommandReport_panics (now : Z) (report : OutputReport) (p : Protocol) :
  getSubcommand report = EnableImu ->
  getSubcommandData report = [] ->
  processSubcommandReport now report p = Panic.
Proof.
  destruct report as [i s d]; cbn; intros -> ->. reflexivity.
Qed.

(** A dispatch that completes satisfied the condition under which it
    completes. *)
Lemma processSubcommandReport_inv (now : Z) (report : OutputReport)
      (p p' : Protocol) (t : list Event) :
  processSubcommandReport now report p = Ok (tt, p', t) ->
  getSubcommand report = EnableImu -> getSubcommandData report <> [].
Proof.
  intros Hrun Hs Hd.
  rewrite (processSubcommandReport_panics now report p Hs Hd) in Hrun.
  discriminate.
Qed.

Lemma bind_Ok {A B} (m : M A) (k : A -> M B) (p p2 : Protocol) (b : B)
      (t : list Event) :
  bind m k p = Ok (b, p2, t) ->
  exists a p1 t1 t2,
    m p = Ok (a, p1, t1) /\ k a p1 = Ok (b, p2, t2) /\ t = t1 ++ t2.
Proof.
  unfold bind. destruct (m p) as [[[a p1] t1]|]; [|discriminate].
  destruct (k a p1) as [[[b' p2'] t2]|] eqn:Hk; [|discriminate].
  intros H; inversion H; subst. exists a, p1, t1, t2. auto.
Qed.

(** The flag [deviceInfoRequired] after a sequence of dispatches. *)
Lemma processSubcommandReports_deviceInfo (rs : list (Z * OutputReport)) :
  forall p p' t,
    processSubcommandReports rs p = Ok (tt, p', t) ->
    deviceInfoRequired p'
      = deviceInfoRequired p
        || existsb (fun x => isRequestDeviceInfo (getSubcommand (snd x))) rs.
Proof.
  induction rs as [|[now report] rs IH]; intros p p' t Hrun.
  - cbv in Hrun. inversion Hrun; subst. now rewrite orb_false_r.
  - cbn [processSubcommandReports] in Hrun.
    apply bind_Ok in Hrun as ([] & p1 & t1 & t2 & H1 & H2 & _).
    destruct (processSubcommandReport_run now report p
                (processSubcommandReport_inv _ _ _ _ _ H1))
      as (q & r & Hq & _ & _ & _ & Hdi & _).
    rewrite Hq in H1. inversion H1; subst.
    rewrite (IH _ _ _ H2), Hdi. cbn [existsb snd]. now rewrite orb_assoc.
Qed.

(** A sequence of dispatches completes when none of them is an [EnableImu]
    with an empty payload. *)
Lemma processSubcommandReports_total (rs : list (Z * OutputReport)) :
  Forall (fun x => getSubcommand (snd x) = EnableImu ->
                   getSubcommandData (snd x) <> []) rs ->
  forall p, exists p' t, processSubcommandReports rs p = Ok (tt, p', t).
Proof.
  induction 1 as [|[now report] rs Hd _ IH]; intros p.
  - exists p, []. reflexivity.
  - destruct (processSubcommandReport_run now report p Hd)
      as (p1 & r & Hrun & _).
    destruct (IH p1) as (p' & t & Hrest).
    exists p', ([EvDispatch report; EvSend r] ++ t).
    cbn [processSubcommandReports]. unfold bind. now rewrite Hrun, Hrest.
Qed.

(** ** The reader loop *)

Lemma processStandardFullReport_run (p : Protocol) :
  processStandardFullReport p
    = Ok (tt, p, [EvSend (standardFullReport (imuEnabled p))]).
Proof. reflexivity. Qed.

Lemma readOutputReport_body_framing (now : Z) (res : LoadResult) (p : Protocol) :
  isFramingError res = true ->
  readOutputReport_body now res p
    = Ok (Return, p, [EvSend (standardFullReport (imuEnabled p))]).
Proof. destruct res; try discriminate; reflexivity. Qed.

(** A loop that is still running after [pre] goes on with what follows. *)
Lemma readOutputReport_app (pre rest : list (Z * LoadResult)) :
  forall p,
    status (readOutputReport pre p) = Running ->
    readOutputReport (pre ++ rest) p
      = let r1 := readOutputReport pre p in
        let r2 := readOutputReport rest (state r1) in
        mkRun (status r2) (state r2) (trace r1 ++ trace r2)
              (reads r1 + reads r2).
Proof.
  induction pre as [|[now res] pre IH]; intros p Hrun.
  - cbn. now destruct (readOutputReport rest p).
  - cbn [app readOutputReport] in *.
    destruct (readOutputReport_body now res p) as [[[[|] p'] t]|];
      cbn in Hrun; try discriminate.
    rewrite (IH p' Hrun). cbn. now rewrite app_assoc.
Qed.

Lemma readOutputReport_running_reads (inputs : list (Z * LoadResult)) :
  forall p,
    status (readOutputReport inputs p) = Running ->
    reads (readOutputReport inputs p) = length inputs.
Proof.
  induction inputs as [|[now res] inputs IH]; intros p Hrun; [reflexivity|].
  cbn [readOutputReport] in *.
  destruct (readOutputReport_body now res p) as [[[[|] p'] t]|];
    cbn in Hrun; try discriminate.
  cbn. now rewrite (IH p' Hrun).
Qed.

(** Whatever one turn of the loop does, it does not clear
    [deviceInfoRequired]. *)
Lemma readOutputReport_body_deviceInfo (now : Z) (res : LoadResult)
      (p p' : Protocol) (k : Flow) (t : list Event) :
  readOutputReport_body now res p = Ok (k, p', t) ->
  deviceInfoRequired p = true -> deviceInfoRequired p' = true.
Proof.
  destruct res as [o| | | | |]; cbn [readOutputReport_body];
    try (intros H; cbv in H; inversion H; subst; tauto).
  intros H Hdi.
  apply bind_Ok in H as ([] & p1 & t1 & t2 & H1 & H2 & _).
  cbv [modify] in H1. inversion H1; subst. clear H1.
  apply bind_Ok in H2 as ([] & p2 & t3 & t4 & H2 & H3 & _).
  cbv [ret] in H3. inversion H3; subst. clear H3.
  destruct (id o);
    try (cbv [ret] in H2; inversion H2; subst; destruct p; exact Hdi).
  destruct (processSubcommandReport_run now o (set_reportReceived true p)
              (processSubcommandReport_inv _ _ _ _ _ H2))
    as (q & r & Hq & _ & _ & _ & Hq' & _).
  rewrite Hq in H2. inversion H2; subst.
  rewrite Hq'. destruct p; cbn in *. now rewrite Hdi.
Qed.

(** One turn of the loop sends at most one report. *)
Lemma readOutputReport_body_sent (now : Z) (res : LoadResult)
      (p p' : Protocol) (k : Flow) (t : list Event) :
  readOutputReport_body now res p = Ok (k, p', t) ->
  (length (sent t) <= 1)%nat.
Proof.
  destruct res as [o| | | | |]; cbn [readOutputReport_body];
    try (intros H; cbv in H; inversion H; subst; cbn; lia).
  intros H.
  apply bind_Ok in H as ([] & p1 & t1 & t2 & H1 & H2 & ->).
  cbv [modify] in H1. inversion H1; subst. clear H1.
  apply bind_Ok in H2 as ([] & p2 & t3 & t4 & H2 & H3 & ->).
  cbv [ret] in H3. inversion H3; subst. clear H3.
  destruct (id o);
    try (cbv [ret] in H2; inversion H2; subst; cbn; lia).
  destruct (processSubcommandReport_run now o (set_reportReceived true p)
              (processSubcommandReport_inv _ _ _ _ _ H2))
    as (q & r & Hq & _).
  rewrite Hq in H2. inversion H2; subst. cbn. lia.
Qed.

(** ** The goroutines *)

(** Case analysis of an enabled action. *)
Ltac step_inv H :=
  unfold step, stepAlive, stepBoot, stepReader, stepWriter, chanSend in H;
  rewrite ?processStandardFullReport_run in H;
  repeat match type of H with
         | context [match ?x with _ => _ end] =>
             destruct x eqn:?; try discriminate H
         end;
  inversion H; subst; clear H.

Lemma enqueuedBy_app (who : Producer) (h1 h2 : list (Producer * InputReport)) :
  enqueuedBy who (h1 ++ h2) = enqueuedBy who h1 ++ enqueuedBy who h2.
Proof.
  induction h1 as [|[[|] r] h1 IH]; cbn; [reflexivity| |];
    destruct who; cbn; now rewrite IH.
Qed.

Lemma step_queueInv (l : Label) (s s' : Sys) :
  step l s = Some s' -> queueInv s -> queueInv s'.
Proof.
  unfold queueInv. intros H [Hlen Hfifo].
  step_inv H; cbn [queue enqueued written] in *;
    repeat match goal with
           | E : (_ <? _)%nat = true |- _ => apply Nat.ltb_lt in E
           end;
    rewrite ?map_app, ?length_app; cbn [map fst snd length] in *;
    (split;
     [ unfold queueCap in *; lia
     | rewrite ?Hfifo, <- ?app_assoc; reflexivity ]).
Qed.

Lemma step_alive (l : Label) (s : Sys) :
  reader s <> ReaderPanicked -> step l s = stepAlive l s.
Proof.
  intros Halive. unfold step. destruct (reader s); try reflexivity.
  exfalso. apply Halive. reflexivity.
Qed.

(** An invariant of every action holds along every execution. *)
Lemma exec_invariant (P : Sys -> Prop) :
  (forall l s s', step l s = Some s' -> P s -> P s') ->
  forall ls s s', exec ls s = Some s' -> P s -> P s'.
Proof.
  intros Hstep. induction ls as [|l ls IH]; intros s s' Hexec HP; cbn in Hexec.
  - now inversion Hexec; subst.
  - destruct (step l s) as [s1|] eqn:E; [|discriminate].
    eapply IH; eauto.
Qed.

Lemma reachable_queueInv (s : Sys) : reachable s -> queueInv s.
Proof.
  intros (now & i & c & mac & s0 & ls & Hs0 & Hexec).
  apply (exec_invariant queueInv step_queueInv ls s0 s Hexec).
  cbv in Hs0. inversion Hs0; subst. split; cbn; [lia|reflexivity].
Qed.

Lemma step_deviceInfoRequired (l : Label) (s s' : Sys) :
  step l s = Some s' ->
  deviceInfoRequired (proto s) = true -> deviceInfoRequired (proto s') = true.
Proof.
  intros H Hdi. step_inv H; cbn [proto]; try assumption.
  eapply readOutputReport_body_deviceInfo; eauto.
Qed.

Lemma step_bootInv (t0 : Z) (l : Label) (s s' : Sys) :
  step l s = Some s' -> bootInv t0 s -> bootInv t0 s'.
Proof.
  unfold bootInv. intros H [Hclk Hboot].
  step_inv H; cbn [clock boot enqueued sent] in *;
    rewrite ?enqueuedBy_app; cbn [enqueuedBy]; rewrite ?app_nil_r;
    repeat match goal with
           | E : boot s = _ |- _ => rewrite E in Hboot
           | E : (_ <=? _) = true |- _ => apply Z.leb_le in E
           end;
    (split; [lia|]); try assumption;
    first
      [ solve [destruct (boot s); intuition (try lia)]
      | solve [split; [assumption|lia]]
      | solve [destruct Hboot as [E1 E2]; split; [lia|];
               eexists; left; split; [reflexivity|assumption]]
      | solve [destruct Hboot as [Hc (imu & [[E1 E2]|[E1 E2]])];
               try discriminate;
               inversion E1; subst; split; [lia|]; exists imu; right;
               rewrite E2; split; reflexivity]
      | solve [destruct Hboot as [Hc (imu & [[E1 E2]|[E1 E2]])];
               try discriminate; split; [lia|]; exists imu; assumption] ].
Qed.

(** * The claims *)

(** C1 (a defect of the code).  The claim is that a dispatch sets the tick
    counter to the time since the last refresh divided by the tick unit and
    truncated to 8 bits, sets [lastTime] to now, and puts that value into the
    header of the reply.  [updateTimer] computes that value and overwrites it
    with the constant 255 on its next line: after every refresh [elapsed] is
    255 and [lastTime] is now.  For two frames dispatched 15 ms apart the
    specified count is 112, while the header of the second reply carries
    255. *)
Theorem updateTimer_discards_computed_ticks :
  (forall now p, exists p',
      updateTimer now p = Ok (tt, p', []) /\
      elapsed p' = 255 /\ lastTime p' = now) /\
  elapsedTicks_spec 5015000000 5000000000 = 112 /\
  exists p t r1 r2,
    processSubcommandReports
      [(5000000000, hostReport SetInputReportMode [48]);
       (5015000000, hostReport TriggerButtonsElapsedTime [])]
      (Setup_fields 3 4 sampleMac NewProtocol) = Ok (tt, p, t) /\
    sent t = [r1; r2] /\
    standardData r2 = Some (255, false) /\
    elapsed p = 255 /\ lastTime p = 5015000000.
Proof.
  split; [|split].
  - intros now p. rewrite updateTimer_run. eexists. repeat split.
  - reflexivity.
  - do 4 eexists. vm_compute. repeat split.
Qed.

(** C2, the claim as stated fails: after an [EnableImu] with payload byte 1
    has set the flag, an [EnableImu] with payload byte 0 leaves it set, while
    the claim has it assigned the value of (0 == 1). *)
Lemma enableImu_off_does_not_clear_flag :
  let off := hostReport EnableImu [0] in
  exists p t,
    processSubcommandReports [(10, hostReport EnableImu [1]); (20, off)]
                             NewProtocol = Ok (tt, p, t) /\
    imuEnabled p = true /\
    imuEnabled p <> (hd 0 (getSubcommandData off) =? 1).
Proof.
  do 2 eexists. vm_compute. repeat split. discriminate.
Qed.

(** C2, amended.  Every dispatch of an [EnableImu] with a non-empty payload
    completes and leaves the flag true when payload byte 0 is 1 and at its
    previous value otherwise; every dispatch of another subcommand completes
    and leaves the flag as it was. *)
Theorem imuEnabled_set_only_by_EnableImu
        (now : Z) (report : OutputReport) (p : Protocol) :
  (getSubcommand report = EnableImu -> getSubcommandData report <> []) ->
  exists p' t,
    processSubcommandReport now report p = Ok (tt, p', t) /\
    imuEnabled p'
      = if isEnableImu (getSubcommand report)
        then imuEnabled p || (hd 0 (getSubcommandData report) =? 1)
        else imuEnabled p.
Proof.
  intros Hd.
  destruct (processSubcommandReport_run now report p Hd)
    as (p' & r & Hrun & _ & _ & _ & _ & Himu & _).
  exists p', [EvDispatch report; EvSend r]. split; [exact Hrun|].
  rewrite Himu. destruct (isEnableImu (getSubcommand report)); cbn.
  - reflexivity.
  - apply orb_false_r.
Qed.

Lemma imuEnabled_set_only_by_EnableImu_witness :
  (getSubcommand (hostReport EnableImu [1]) = EnableImu ->
   getSubcommandData (hostReport EnableImu [1]) <> []) /\
  exists p' t,
    processSubcommandReport 20 (hostReport EnableImu [1]) NewProtocol
      = Ok (tt, p', t) /\
    imuEnabled p'
      = if isEnableImu (getSubcommand (hostReport EnableImu [1]))
        then imuEnabled NewProtocol
             || (hd 0 (getSubcommandData (hostReport EnableImu [1])) =? 1)
        else imuEnabled NewProtocol.
Proof.
  assert (H : getSubcommand (hostReport EnableImu [1]) = EnableImu ->
              getSubcommandData (hostReport EnableImu [1]) <> [])
    by (intros _; discriminate).
  split; [exact H|].
  exact (imuEnabled_set_only_by_EnableImu 20 (hostReport EnableImu [1])
                                          NewProtocol H).
Defined.

(** C4.  Every dispatch of a recognized subcommand completes having sent
    exactly one report on the queue; the report is tagged
    [SubcommandReplies], carries an acknowledgment, and its header carries
    the value [deviceInfoRequired] has when the reply is built: the value
    before the dispatch, or true when the subcommand is [RequestDeviceInfo].
    The payload of a decoded frame is not empty (frames have a fixed size
    and the codec rejects data that is too short); the statement asks for
    that where the code relies on it, in [answerEnableImu]. *)
Theorem recognized_subcommand_one_reply
        (now : Z) (report : OutputReport) (p : Protocol) :
  recognized (getSubcommand report) = true ->
  (getSubcommand report = EnableImu -> getSubcommandData report <> []) ->
  exists p' t r,
    processSubcommandReport now report p = Ok (tt, p', t) /\
    sent t = [r] /\
    dispatched t = [report] /\
    reportId r = Some SubcommandReplies /\
    standardData r = Some (elapsed p', deviceInfoRequired p') /\
    ackData r <> None /\
    deviceInfoRequired p'
      = deviceInfoRequired p || isRequestDeviceInfo (getSubcommand report).
Proof.
  intros Hrec Hd.
  destruct (processSubcommandReport_run now report p Hd)
    as (p' & r & Hrun & _ & _ & _ & Hdi & _ & _ & _ & _ & Hr).
  rewrite Hrec in Hr. destruct Hr as (Hid & Hstd & Hack).
  exists p', [EvDispatch report; EvSend r], r.
  repeat split; assumption.
Qed.

Lemma recognized_subcommand_one_reply_witness :
  recognized (getSubcommand (hostReport RequestDeviceInfo [])) = true /\
  (getSubcommand (hostReport RequestDeviceInfo []) = EnableImu ->
   getSubcommandData (hostReport RequestDeviceInfo []) <> []) /\
  exists p' t r,
    processSubcommandReport 10 (hostReport RequestDeviceInfo [])
                            (Setup_fields 3 4 sampleMac NewProtocol)
      = Ok (tt, p', t) /\
    sent t = [r] /\
    dispatched t = [hostReport RequestDeviceInfo []] /\
    reportId r = Some SubcommandReplies /\
    standardData r = Some (elapsed p', deviceInfoRequired p') /\
    ackData r <> None /\
    deviceInfoRequired p'
      = deviceInfoRequired (Setup_fields 3 4 sampleMac NewProtocol)
        || isRequestDeviceInfo (getSubcommand (hostReport RequestDeviceInfo [])).
Proof.
  assert (H1 : recognized (getSubcommand (hostReport RequestDeviceInfo [])) = true)
    by reflexivity.
  assert (H2 : getSubcommand (hostReport RequestDeviceInfo []) = EnableImu ->
               getSubcommandData (hostReport RequestDeviceInfo []) <> [])
    by (intros H; discriminate H).
  split; [exact H1|]. split; [exact H2|].
  exact (recognized_subcommand_one_reply
           10 (hostReport RequestDeviceInfo [])
           (Setup_fields 3 4 sampleMac NewProtocol) H1 H2).
Defined.

(** C5.  Every dispatch of a subcommand that is not one of the ten
    recognized ones completes having sent exactly one report, the plain
    standard report of [processStandardFullReport] (tagged
    [StandardFullMode], with no reply header and no acknowledgment, the
    motion-sensor field set from [imuEnabled]), and no acknowledgment; the
    command is otherwise ignored: beyond the refresh of the timer that
    opens every dispatch, nothing of the protocol state is touched, the
    flags, the handles and the MAC address are unchanged. *)
Theorem unknown_subcommand_fallback
        (now : Z) (report : OutputReport) (p : Protocol) :
  recognized (getSubcommand report) = false ->
  exists p' r,
    processSubcommandReport now report p
      = Ok (tt, p', [EvDispatch report; EvSend r]) /\
    r = standardFullReport (imuEnabled p) /\
    reportId r = Some StandardFullMode /\
    standardData r = None /\
    ackData r = None /\
    lastTime p' = now /\
    reportReceived p' = reportReceived p /\
    deviceInfoRequired p' = deviceInfoRequired p /\
    imuEnabled p' = imuEnabled p /\
    itr p' = itr p /\ ctrl p' = ctrl p /\ macAddr p' = macAddr p.
Proof.
  intros Hrec.
  assert (Hd : getSubcommand report = EnableImu -> getSubcommandData report <> [])
    by (intros E; rewrite E in Hrec; discriminate Hrec).
  destruct (processSubcommandReport_run now report p Hd)
    as (p' & r & Hrun & Hlt & _ & Hrr & Hdi & Himu & Hitr & Hctrl & Hmac & Hr).
  rewrite Hrec in Hr. subst r.
  exists p', (standardFullReport (imuEnabled p)).
  repeat split; try assumption.
  - rewrite Hdi. destruct (getSubcommand report); try discriminate Hrec.
    apply orb_false_r.
  - rewrite Himu. destruct (getSubcommand report); try discriminate Hrec.
    apply orb_false_r.
Qed.

Lemma unknown_subcommand_fallback_witness :
  recognized (getSubcommand (hostReport (UnknownSubcommand 153) [])) = false /\
  exists p' r,
    processSubcommandReport 8 (hostReport (UnknownSubcommand 153) []) NewProtocol
      = Ok (tt, p', [EvDispatch (hostReport (UnknownSubcommand 153) []);
                     EvSend r]) /\
    r = standardFullReport (imuEnabled NewProtocol) /\
    reportId r = Some StandardFullMode /\
    standardData r = None /\
    ackData r = None /\
    lastTime p' = 8 /\
    reportReceived p' = reportReceived NewProtocol /\
    deviceInfoRequired p' = deviceInfoRequired NewProtocol /\
    imuEnabled p' = imuEnabled NewProtocol /\
    itr p' = itr NewProtocol /\ ctrl p' = ctrl NewProtocol /\
    macAddr p' = macAddr NewProtocol.
Proof.
  split; [reflexivity|].
  exact (unknown_subcommand_fallback
           8 (hostReport (UnknownSubcommand 153) []) NewProtocol eq_refl).
Defined.

(** C10.  [answerEnableImu] reads [data[0]] with no length guard: on every
    non-empty payload the handler, and the dispatch of an [EnableImu] with
    it, completes with its one reply; on the empty payload the read is out
    of bounds and both panic, so the completion needs the payload to be
    non-empty. *)
Theorem answerEnableImu_reads_byte0 :
  (forall data p, data <> [] ->
     exists p' r, answerEnableImu data p = Ok (tt, p', [EvSend r])) /\
  (forall p, answerEnableImu [] p = Panic) /\
  (forall now report p,
     getSubcommand report = EnableImu ->
     getSubcommandData report <> [] ->
     exists p' r,
       processSubcommandReport now report p
         = Ok (tt, p', [EvDispatch report; EvSend r])) /\
  (forall now report p,
     getSubcommand report = EnableImu ->
     getSubcommandData report = [] ->
     processSubcommandReport now report p = Panic).
Proof.
  repeat split.
  - intros [|b data] p Hd; [now contradiction Hd|].
    run_engine. destruct (b =? 1); do 2 eexists; reflexivity.
  - intros now report p Hs Hd.
    destruct (processSubcommandReport_run now report p (fun _ => Hd))
      as (p' & r & Hrun & _). eauto.
  - apply processSubcommandReport_panics.
Qed.

Lemma answerEnableImu_reads_byte0_witness :
  [1] <> [] /\
  (exists p' r, answerEnableImu [1] NewProtocol = Ok (tt, p', [EvSend r])) /\
  answerEnableImu [] NewProtocol = Panic /\
  processSubcommandReport 10 (hostReport EnableImu []) NewProtocol = Panic.
Proof.
  assert (H : [1] <> ([] : list Z)) by (intros E; discriminate E).
  split; [exact H|].
  split; [exact (proj1 answerEnableImu_reads_byte0 [1] NewProtocol H)|].
  split; [exact (proj1 (proj2 answerEnableImu_reads_byte0) NewProtocol)|].
  exact (proj2 (proj2 (proj2 answerEnableImu_reads_byte0))
               10 (hostReport EnableImu []) NewProtocol eq_refl eq_refl).
Defined.

(** C6.  When a load yields [errEmptyData], [errBadLengthData] or
    [errMalformedData], the loop sends exactly one report, the plain standard
    report that [processStandardFullReport] builds (the one the bootstrap
    task sends), and returns: the state is untouched, the dispatcher is not
    called, and whatever the channel would yield afterwards is never read
    (the number of loads is one more than before, and a returned reader has
    no load left to make). *)
Theorem framing_error_resets_and_ends_loop
        (pre rest : list (Z * LoadResult)) (now : Z) (res : LoadResult)
        (p : Protocol) :
  isFramingError res = true ->
  status (readOutputReport pre p) = Running ->
  let before := readOutputReport pre p in
  let after := readOutputReport (pre ++ (now, res) :: rest) p in
  let report := standardFullReport (imuEnabled (state before)) in
  status after = Returned /\
  state after = state before /\
  trace after = trace before ++ [EvSend report] /\
  sent (trace after) = sent (trace before) ++ [report] /\
  dispatched (trace after) = dispatched (trace before) /\
  reads after = S (length pre) /\
  processStandardFullReport (state before)
    = Ok (tt, state before, [EvSend report]) /\
  (forall s s',
      reader s = ReaderLoop ->
      step (ReaderLoad res) s = Some s' ->
      proto s' = proto s /\
      reader s' = ReaderSending [standardFullReport (imuEnabled (proto s))]
                                Return) /\
  (forall s,
      reader s = ReaderReturned ->
      (forall res', step (ReaderLoad res') s = None) /\
      step ReaderSend s = None /\
      (forall l s',
          step l s = Some s' ->
          reader s' = ReaderReturned /\
          enqueuedBy Reader (enqueued s') = enqueuedBy Reader (enqueued s))).
Proof.
  intros Hres Hrun before after report.
  assert (Hafter : after
                   = mkRun Returned (state before)
                           (trace before ++ [EvSend report])
                           (reads before + 1)).
  { unfold after. rewrite (readOutputReport_app _ _ _ Hrun).
    cbn [readOutputReport]. fold before.
    rewrite (readOutputReport_body_framing _ _ _ Hres). reflexivity. }
  rewrite Hafter. cbn [status state trace reads].
  repeat split.
  - clear. induction (trace before) as [|[r|o] t IH]; cbn; congruence.
  - clear. induction (trace before) as [|[r|o] t IH]; cbn; congruence.
  - unfold before. rewrite (readOutputReport_running_reads _ _ Hrun). lia.
  - unfold step, stepAlive, stepReader in H0. rewrite H in H0.
    rewrite (readOutputReport_body_framing _ _ _ Hres) in H0.
    now inversion H0.
  - unfold step, stepAlive, stepReader in H0. rewrite H in H0.
    rewrite (readOutputReport_body_framing _ _ _ Hres) in H0.
    now inversion H0.
  - intros res'. unfold step, stepAlive, stepReader. now rewrite H.
  - unfold step, stepAlive, stepReader. now rewrite H.
  - step_inv H0; cbn [reader]; congruence.
  - step_inv H0; cbn [enqueued]; rewrite ?enqueuedBy_app; cbn;
      rewrite ?app_nil_r; congruence.
Qed.


Lemma framing_error_resets_and_ends_loop_witness :
  let pre := [(1, EAGAIN); (2, Loaded (hostReport EnableImu [1]))] in
  let rest := [(4, Loaded (hostReport RequestDeviceInfo []))] in
  isFramingError errMalformedData = true /\
  status (readOutputReport pre NewProtocol) = Running /\
  status (readOutputReport (pre ++ (3, errMalformedData) :: rest) NewProtocol)
    = Returned /\
  reads (readOutputReport (pre ++ (3, errMalformedData) :: rest) NewProtocol)
    = 3%nat.
Proof.
  intros pre rest.
  assert (H1 : isFramingError errMalformedData = true) by reflexivity.
  assert (H2 : status (readOutputReport pre NewProtocol) = Running)
    by reflexivity.
  pose proof (framing_error_resets_and_ends_loop
                pre rest 3 errMalformedData NewProtocol H1 H2) as H.
  cbv zeta in H.
  split; [exact H1|]. split; [exact H2|].
  split; [exact (proj1 H)|].
  exact (proj1 (proj2 (proj2 (proj2 (proj2 (proj2 H)))))).
Defined.

(** C7.  Against a channel whose every load yields EAGAIN the loop, after
    any number of turns, is still running, having issued one load per turn,
    with the state as it was and an empty trace: the dispatcher was never
    called and nothing was sent.  Among the goroutines, such a turn has
    nothing to send and brings the reader back to the load at once, the
    whole state unchanged. *)
Theorem would_block_spins (inputs : list (Z * LoadResult)) (p : Protocol) :
  Forall (fun x => snd x = EAGAIN) inputs ->
  let r := readOutputReport inputs p in
  status r = Running /\
  reads r = length inputs /\
  state r = p /\
  trace r = [] /\
  dispatched (trace r) = [] /\
  sent (trace r) = [] /\
  (forall s,
      reader s = ReaderLoop ->
      exists s1,
        step (ReaderLoad EAGAIN) s = Some s1 /\
        step ReaderSend s1 = None /\
        step ReaderNext s1 = Some s).
Proof.
  intros Hall r.
  assert (Hr : r = mkRun Running p [] (length inputs)).
  { unfold r. clear r. revert p.
    induction Hall as [|[now res] inputs Hres _ IH]; intros p; [reflexivity|].
    cbn in Hres. subst res. cbn [readOutputReport readOutputReport_body ret].
    rewrite IH. reflexivity. }
  rewrite Hr. cbn [status state trace reads dispatched sent].
  repeat split.
  intros s Hs. eexists. unfold step, stepAlive, stepReader. rewrite Hs. cbn.
  repeat split. destruct s; cbn in *. now subst.
Qed.

Lemma would_block_spins_witness :
  let inputs := [(1, EAGAIN); (2, EAGAIN); (3, EAGAIN)] in
  Forall (fun x : Z * LoadResult => snd x = EAGAIN) inputs /\
  status (readOutputReport inputs NewProtocol) = Running /\
  reads (readOutputReport inputs NewProtocol) = 3%nat /\
  trace (readOutputReport inputs NewProtocol) = [].
Proof.
  intros inputs.
  assert (H : Forall (fun x : Z * LoadResult => snd x = EAGAIN) inputs)
    by (repeat constructor).
  pose proof (would_block_spins inputs NewProtocol H) as W. cbv zeta in W.
  split; [exact H|].
  split; [exact (proj1 W)|].
  split; [exact (proj1 (proj2 W))|].
  exact (proj1 (proj2 (proj2 (proj2 W)))).
Defined.

(** C3.  A new [Protocol] has [deviceInfoRequired] false, and [Setup] keeps
    it so; after any sequence of dispatches the flag is its value before
    them or'ed with whether one of them was a [RequestDeviceInfo]: from a
    new [Protocol] it is false as long as none was dispatched and true once
    one was, whatever follows (the sequence runs to its end unless it holds
    an [EnableImu] with an empty payload, and a [RequestDeviceInfo] always
    completes); and no action of any goroutine of the engine takes it from
    true to false. *)
Theorem deviceInfoRequired_sticky :
  deviceInfoRequired NewProtocol = false /\
  (forall i c mac p,
      deviceInfoRequired (Setup_fields i c mac p) = deviceInfoRequired p) /\
  (forall rs p p' t,
      processSubcommandReports rs p = Ok (tt, p', t) ->
      deviceInfoRequired p'
        = deviceInfoRequired p
          || existsb (fun x => isRequestDeviceInfo (getSubcommand (snd x))) rs) /\
  (forall rs p,
      Forall (fun x => getSubcommand (snd x) = EnableImu ->
                       getSubcommandData (snd x) <> []) rs ->
      exists p' t, processSubcommandReports rs p = Ok (tt, p', t)) /\
  (forall now report p,
      getSubcommand report = RequestDeviceInfo ->
      exists p' t,
        processSubcommandReport now report p = Ok (tt, p', t) /\
        deviceInfoRequired p' = true) /\
  (forall now res p p' k t,
      readOutputReport_body now res p = Ok (k, p', t) ->
      deviceInfoRequired p = true -> deviceInfoRequired p' = true) /\
  (forall l s s',
      step l s = Some s' ->
      deviceInfoRequired (proto s) = true ->
      deviceInfoRequired (proto s') = true).
Proof.
  split; [reflexivity|]. split; [reflexivity|].
  split; [exact processSubcommandReports_deviceInfo|].
  split; [intros rs p H; exact (processSubcommandReports_total rs H p)|].
  split; [|split;
           [exact readOutputReport_body_deviceInfo
           |exact step_deviceInfoRequired]].
  intros now report p Hs.
  destruct (processSubcommandReport_run now report p)
    as (p' & r & Hrun & _ & _ & _ & Hdi & _).
  { rewrite Hs. discriminate. }
  exists p', [EvDispatch report; EvSend r]. split; [exact Hrun|].
  rewrite Hdi, Hs. apply orb_true_r.
Qed.

Lemma deviceInfoRequired_sticky_witness :
  let before := [(10, hostReport SetInputReportMode [48]);
                 (20, hostReport EnableImu [1])] in
  let after := before ++ [(30, hostReport RequestDeviceInfo []);
                          (40, hostReport SetPlayerLights [1]);
                          (50, hostReport (UnknownSubcommand 153) [])] in
  exists p1 t1 p2 t2,
    processSubcommandReports before NewProtocol = Ok (tt, p1, t1) /\
    deviceInfoRequired p1 = false /\
    processSubcommandReports after NewProtocol = Ok (tt, p2, t2) /\
    deviceInfoRequired p2 = true.
Proof.
  intros before after.
  destruct (processSubcommandReports before NewProtocol)
    as [[[[] p1] t1]|] eqn:E1; [|discriminate E1].
  destruct (processSubcommandReports after NewProtocol)
    as [[[[] p2] t2]|] eqn:E2; [|discriminate E2].
  exists p1, t1, p2, t2.
  split; [reflexivity|].
  split; [exact (proj1 (proj2 (proj2 deviceInfoRequired_sticky))
                       before NewProtocol p1 t1 E1)|].
  split; [reflexivity|].
  exact (proj1 (proj2 (proj2 deviceInfoRequired_sticky))
               after NewProtocol p2 t2 E2).
Defined.

(** C8.  The channel is a first-in-first-out buffer of capacity 5.  In every
    reachable state it holds at most 5 reports, and the reports put in are,
    in order, those already taken out by the writer followed by those
    pending; a send appends at the back and needs room, a write takes the
    front.  When 5 reports are pending no send is enabled; any action other
    than the writer's leaves the buffer full and a producer standing at its
    send where it is; the writer's dequeue is enabled and, once it is made,
    the send of a waiting producer goes through. *)
Theorem queue_is_bounded_fifo (s : Sys) :
  reachable s ->
  queueCap = 5%nat /\
  (length (queue s) <= queueCap)%nat /\
  map snd (enqueued s) = map fst (written s) ++ queue s /\
  (forall l s',
      step l s = Some s' ->
      if isSend l
      then (length (queue s) < queueCap)%nat /\
           exists r, queue s' = queue s ++ [r]
      else if isWrite l
           then exists r, queue s = r :: queue s'
           else queue s' = queue s) /\
  ((length (queue s) = queueCap)%nat ->
   step BootSend s = None /\
   step ReaderSend s = None /\
   (forall l s',
       step l s = Some s' ->
       isWrite l = false ->
       queue s' = queue s /\
       (forall r rest,
           boot s = BootSending (r :: rest) ->
           boot s' = BootSending (r :: rest)) /\
       (forall r rest k,
           reader s = ReaderSending (r :: rest) k ->
           reader s' = ReaderSending (r :: rest) k)) /\
   (reader s <> ReaderPanicked ->
    forall ok, exists s',
      step (WriterWrite ok) s = Some s' /\
      (length (queue s') < queueCap)%nat /\
      (forall r rest,
          boot s = BootSending (r :: rest) ->
          exists s'',
            step BootSend s' = Some s'' /\ queue s'' = queue s' ++ [r]) /\
      (forall r rest k,
          reader s = ReaderSending (r :: rest) k ->
          exists s'',
            step ReaderSend s' = Some s'' /\ queue s'' = queue s' ++ [r]))).
Proof.
  intros Hreach. destruct (reachable_queueInv s Hreach) as [Hlen Hfifo].
  split; [reflexivity|]. split; [exact Hlen|]. split; [exact Hfifo|].
  split; [|intros Hfull; split; [|split; [|split]]].
  - intros l s' H. step_inv H; cbn [isSend isWrite queue]; eauto;
      match goal with
      | E : (_ <? _)%nat = true |- _ => apply Nat.ltb_lt in E; eauto
      end.
  - unfold step, stepAlive, stepBoot, chanSend. rewrite Hfull.
    destruct (reader s), (boot s) as [| |[|]|]; reflexivity.
  - unfold step, stepAlive, stepReader, chanSend. rewrite Hfull.
    destruct (reader s) as [|[|]| |]; reflexivity.
  - intros l s' H Hw.
    step_inv H; cbn [isWrite queue boot reader] in *; try discriminate Hw;
      try match goal with
          | E : (_ <? _)%nat = true |- _ =>
              rewrite Hfull in E; discriminate E
          end;
      (split; [reflexivity|]); split; intros; congruence.
  - intros Halive ok.
    destruct (queue s) as [|r q] eqn:Eq; [discriminate Hfull|].
    cbn [length] in Hfull. unfold queueCap in *.
    assert (Hq : (length q <? 5)%nat = true) by (apply Nat.ltb_lt; lia).
    rewrite (step_alive _ _ Halive). cbn [stepAlive]. unfold stepWriter.
    rewrite Eq. eexists. split; [reflexivity|]. split; [cbn; lia|].
    split.
    + intros r' rest Hb. eexists. rewrite step_alive by exact Halive.
      unfold stepAlive, stepBoot, chanSend, queueCap; cbn [reader boot queue].
      rewrite Hb, Hq. split; reflexivity.
    + intros r' rest k Hr. eexists. rewrite step_alive by exact Halive.
      unfold stepAlive, stepReader, chanSend, queueCap; cbn [reader boot queue].
      rewrite Hr, Hq. split; reflexivity.
Qed.

Lemma queue_is_bounded_fifo_witness :
  exists s,
    reachable s /\
    length (queue s) = queueCap /\
    step BootSend s = None /\
    step ReaderSend s = None.
Proof.
  pose (s0 := mkSys (Setup_fields 3 4 sampleMac NewProtocol) [] 0
                    BootStart ReaderLoop [] []).
  destruct (exec fullQueueSchedule s0) as [s|] eqn:E;
    [|vm_compute in E; discriminate E].
  assert (R : reachable s).
  { exists 0, 3, 4, sampleMac, s0, fullQueueSchedule.
    split; [reflexivity|exact E]. }
  assert (F : length (queue s) = queueCap).
  { vm_compute in E. inversion E. reflexivity. }
  exists s. split; [exact R|]. split; [exact F|].
  destruct (queue_is_bounded_fifo s R) as (_ & _ & _ & _ & Hfull).
  destruct (Hfull F) as (Hb & Hr & _).
  split; assumption.
Defined.

(** ** The bootstrap task *)

(** A bootstrap task standing at its send can finish: the writer makes room
    if the channel is full. *)
Lemma boot_sending_can_finish (s : Sys) (r : InputReport) :
  boot s = BootSending [r] ->
  (length (queue s) <= queueCap)%nat ->
  reader s <> ReaderPanicked ->
  exists ls s', exec ls s = Some s' /\ boot s' = BootDone.
Proof.
  intros Hb Hlen Halive.
  destruct (length (queue s) <? queueCap)%nat eqn:Hroom.
  - exists [BootSend; BootStop]. cbn [exec].
    rewrite (step_alive _ _ Halive).
    unfold stepAlive, stepBoot, chanSend. rewrite Hb, Hroom.
    rewrite step_alive by exact Halive. cbn. eauto.
  - apply Nat.ltb_ge in Hroom.
    destruct (queue s) as [|r0 q] eqn:Eq; [cbn in Hroom; unfold queueCap in *; lia|].
    assert (Hq : (length q <? queueCap)%nat = true)
      by (apply Nat.ltb_lt; cbn in Hlen; lia).
    exists [WriterWrite true; BootSend; BootStop]. cbn [exec].
    rewrite (step_alive _ _ Halive).
    unfold stepAlive, stepWriter. rewrite Eq.
    rewrite step_alive by exact Halive.
    unfold stepAlive, stepBoot, chanSend. cbn [boot queue]. rewrite Hb, Hq.
    rewrite step_alive by exact Halive. cbn. eauto.
Qed.

Lemma boot_can_finish (t0 : Z) (s : Sys) :
  bootInv t0 s ->
  (length (queue s) <= queueCap)%nat ->
  reader s <> ReaderPanicked ->
  exists ls s', exec ls s = Some s' /\ boot s' = BootDone.
Proof.
  intros [_ Hboot] Hlen Halive.
  assert (Hfire : forall s1,
             reader s1 = reader s -> queue s1 = queue s ->
             forall deadline,
               boot s1 = BootWaiting deadline -> deadline <= clock s1 ->
               exists ls s', exec ls s1 = Some s' /\ boot s' = BootDone).
  { intros s1 Hr1 Hq1 deadline Hb1 Hdl.
    assert (Halive1 : reader s1 <> ReaderPanicked) by now rewrite Hr1.
    apply Z.leb_le in Hdl.
    set (s2 := mkSys (proto s1) (queue s1) (clock s1)
                     (BootSending [standardFullReport (imuEnabled (proto s1))])
                     (reader s1) (enqueued s1) (written s1)).
    assert (E : step BootFire s1 = Some s2).
    { rewrite (step_alive _ _ Halive1). unfold stepAlive, stepBoot.
      rewrite Hb1, Hdl. reflexivity. }
    destruct (boot_sending_can_finish
                s2 (standardFullReport (imuEnabled (proto s1))) eq_refl)
      as (ls & s' & Hexec & Hdone).
    + cbn [s2 queue]. rewrite Hq1. exact Hlen.
    + exact Halive1.
    + exists (BootFire :: ls), s'. cbn [exec]. rewrite E. now split. }
  destruct (boot s) as [|deadline|pending|] eqn:Hb.
  - (* before the ticker *)
    destruct (Hfire (mkSys (proto s) (queue s) (clock s + Time.Second)
                           (BootWaiting (clock s + Time.Second)) (reader s)
                           (enqueued s) (written s))
                    eq_refl eq_refl (clock s + Time.Second) eq_refl
                    (Z.le_refl _))
      as (ls & s' & Hexec & Hdone).
    exists (BootNewTicker :: Tick Time.Second :: ls), s'. cbn [exec].
    rewrite (step_alive _ _ Halive). unfold stepAlive, stepBoot. rewrite Hb.
    rewrite step_alive by exact Halive. cbn [stepAlive].
    change (0 <=? Time.Second) with true. cbn [clock proto queue boot reader
                                                 enqueued written].
    now split.
  - (* waiting for the tick *)
    set (d := Z.max 0 (deadline - clock s)).
    assert (Hd : (0 <=? d) = true) by (apply Z.leb_le; unfold d; lia).
    destruct (Hfire (mkSys (proto s) (queue s) (clock s + d) (boot s)
                           (reader s) (enqueued s) (written s))
                    eq_refl eq_refl deadline Hb)
      as (ls & s' & Hexec & Hdone).
    { cbn [clock]. unfold d. lia. }
    exists (Tick d :: ls), s'. cbn [exec].
    rewrite (step_alive _ _ Halive). cbn [stepAlive]. rewrite Hd.
    now split.
  - destruct Hboot as [_ (imu & [[-> _]|[-> _]])].
    + apply (boot_sending_can_finish s (standardFullReport imu)); assumption.
    + exists [BootStop]. cbn [exec]. rewrite (step_alive _ _ Halive).
      unfold stepAlive, stepBoot. rewrite Hb. eauto.
  - exists [], s. now split.
Qed.

(** C9.  The bootstrap task runs once.  It starts before its ticker; the
    ticker fires no sooner than one second after [Setup]; at the tick the
    task builds one plain standard report whose motion-sensor field is the
    value [imuEnabled] has then, leaving the state alone; its send puts that
    report, and only that one, into the channel; after [ticker.Stop()] it is
    done for good: it has put exactly that one report into the channel and
    no later action makes it put another.  At every moment it has put in at
    most one report, none before the delay has passed, and as long as the
    process runs it can still reach its end. *)
Theorem bootstrap_sends_one_report
        (now i c : Z) (mac : list Z) (s0 : Sys) (ls : list Label) (s : Sys) :
  Setup true now i c mac NewProtocol = Some s0 ->
  exec ls s0 = Some s ->
  boot s0 = BootStart /\
  enqueued s0 = [] /\
  (length (enqueuedBy Bootstrap (enqueued s)) <= 1)%nat /\
  (enqueuedBy Bootstrap (enqueued s) <> [] -> now + Time.Second <= clock s) /\
  (forall s',
      step BootNewTicker s = Some s' ->
      boot s = BootStart /\
      boot s' = BootWaiting (clock s + Time.Second)) /\
  (forall s',
      step BootFire s = Some s' ->
      exists deadline,
        boot s = BootWaiting deadline /\
        now + Time.Second <= deadline /\
        deadline <= clock s /\
        proto s' = proto s /\
        queue s' = queue s /\
        boot s' = BootSending [standardFullReport (imuEnabled (proto s))]) /\
  (forall s',
      step BootSend s = Some s' ->
      exists imu,
        boot s = BootSending [standardFullReport imu] /\
        enqueuedBy Bootstrap (enqueued s) = [] /\
        queue s' = queue s ++ [standardFullReport imu] /\
        enqueued s' = enqueued s ++ [(Bootstrap, standardFullReport imu)] /\
        boot s' = BootSending []) /\
  (forall s',
      step BootStop s = Some s' ->
      boot s = BootSending [] /\ boot s' = BootDone) /\
  (boot s = BootDone ->
   (exists imu,
       enqueuedBy Bootstrap (enqueued s) = [standardFullReport imu] /\
       reportId (standardFullReport imu) = Some StandardFullMode /\
       imuData (standardFullReport imu) = Some imu /\
       standardData (standardFullReport imu) = None /\
       ackData (standardFullReport imu) = None) /\
   (forall l s',
       step l s = Some s' ->
       boot s' = BootDone /\
       enqueuedBy Bootstrap (enqueued s')
         = enqueuedBy Bootstrap (enqueued s))) /\
  (reader s <> ReaderPanicked ->
   exists ls' s', exec ls' s = Some s' /\ boot s' = BootDone).
Proof.
  intros Hs0 Hexec.
  assert (Hq : queueInv s).
  { apply reachable_queueInv. exists now, i, c, mac, s0, ls. now split. }
  cbv [Setup] in Hs0. inversion Hs0; subst s0. clear Hs0.
  assert (Hinv : bootInv now s).
  { apply (exec_invariant (bootInv now) (step_bootInv now) ls _ s Hexec).
    split; cbn; [lia|reflexivity]. }
  destruct Hinv as [Hclk Hboot].
  split; [reflexivity|]. split; [reflexivity|].
  split; [|split; [|split; [|split; [|split; [|split; [|split]]]]]].
  - destruct (boot s) as [|dl|pend|].
    + rewrite Hboot. cbn. lia.
    + destruct Hboot as [-> _]. cbn. lia.
    + destruct Hboot as [_ (imu & [[_ ->]|[_ ->]])]; cbn; lia.
    + destruct Hboot as [_ (imu & ->)]. cbn. lia.
  - intros Hne. destruct (boot s) as [|dl|pend|].
    + now contradiction Hne.
    + destruct Hboot as [E _]. now contradiction Hne.
    + tauto.
    + tauto.
  - intros s' H. step_inv H; cbn [boot]; now split.
  - intros s' H.
    step_inv H; cbn [boot proto queue sent];
      match goal with
      | E : (?d <=? _) = true |- _ => apply Z.leb_le in E; exists d
      end; repeat split; tauto.
  - intros s' H.
    step_inv H; cbn [boot queue enqueued];
      destruct Hboot as [_ (imu & [[E1 E2]|[E1 E2]])]; try discriminate E1;
      inversion E1; subst; exists imu; repeat split; assumption.
  - intros s' H. step_inv H; cbn [boot]; now split.
  - intros Hdone. rewrite Hdone in Hboot.
    destruct Hboot as [_ (imu & Henq)]. split.
    + exists imu. repeat split. exact Henq.
    + intros l s' H. step_inv H; cbn [boot enqueued];
        rewrite ?enqueuedBy_app; cbn [enqueuedBy]; rewrite ?app_nil_r;
        try (split; [assumption|reflexivity]); congruence.
  - intros Halive.
    apply (boot_can_finish now s); [split; assumption|apply Hq|exact Halive].
Qed.

Lemma bootstrap_sends_one_report_witness :
  exists s0 s,
    Setup true 0 3 4 sampleMac NewProtocol = Some s0 /\
    exec bootThenDeviceInfo s0 = Some s /\
    boot s = BootDone /\
    (length (enqueuedBy Bootstrap (enqueued s)) <= 1)%nat.
Proof.
  pose (s0 := mkSys (Setup_fields 3 4 sampleMac NewProtocol) [] 0
                    BootStart ReaderLoop [] []).
  assert (H0 : Setup true 0 3 4 sampleMac NewProtocol = Some s0)
    by reflexivity.
  destruct (exec bootThenDeviceInfo s0) as [s|] eqn:E;
    [|vm_compute in E; discriminate E].
  exists s0, s. split; [exact H0|]. split; [exact E|].
  split.
  - vm_compute in E. inversion E. reflexivity.
  - exact (proj1 (proj2 (proj2
             (bootstrap_sends_one_report 0 3 4 sampleMac s0
                                         bootThenDeviceInfo s H0 E)))).
Defined.

(** * Further properties of the engine *)

(** ** Turns of the reader loop *)

(** The five ways a turn of the loop can complete. *)
Lemma readOutputReport_body_inv (now : Z) (res : LoadResult)
      (p p' : Protocol) (k : Flow) (t : list Event) :
  readOutputReport_body now res p = Ok (k, p', t) ->
  (res = EAGAIN /\ k = Continue /\ p' = p /\ t = []) \/
  (isFramingError res = true /\ k = Return /\ p' = p /\
   t = [EvSend (standardFullReport (imuEnabled p))]) \/
  (res = errOther /\ k = Return /\ p' = p /\ t = []) \/
  (exists o,
      res = Loaded o /\ id o <> RumbleAndSubcommand /\ k = Continue /\
      p' = set_reportReceived true p /\ t = []) \/
  (exists o r,
      res = Loaded o /\ id o = RumbleAndSubcommand /\ k = Continue /\
      processSubcommandReport now o (set_reportReceived true p)
        = Ok (tt, p', [EvDispatch o; EvSend r]) /\
      t = [EvDispatch o; EvSend r]).
Proof.
  destruct res as [o| | | | |]; cbn [readOutputReport_body]; intros H;
    [|cbv in H; inversion H; subst; clear H..].
  - apply bind_Ok in H as ([] & p1 & t1 & t2 & H1 & H2 & ->).
    cbv [modify] in H1. inversion H1; subst. clear H1.
    apply bind_Ok in H2 as ([] & p2 & t3 & t4 & H2 & H3 & ->).
    cbv [ret] in H3. inversion H3; subst. clear H3.
    destruct (id o) eqn:Eid;
      try (cbv [ret] in H2; inversion H2; subst;
           do 3 right; left; exists o; rewrite Eid;
           repeat split; discriminate).
    do 4 right.
    destruct (processSubcommandReport_run now o (set_reportReceived true p)
                (processSubcommandReport_inv _ _ _ _ _ H2))
      as (q & r & Hq & _).
    rewrite Hq in H2. inversion H2; subst.
    exists o, r. repeat split; [exact Eid|exact Hq].
  - left. repeat split.
  - right; left. repeat split.
  - right; left. repeat split.
  - right; left. repeat split.
  - do 2 right; left. repeat split.
Qed.

Lemma sent_app (t1 t2 : list Event) : sent (t1 ++ t2) = sent t1 ++ sent t2.
Proof.
  induction t1 as [|[r|o] t1 IH]; cbn; congruence.
Qed.

Lemma dispatched_app (t1 t2 : list Event) :
  dispatched (t1 ++ t2) = dispatched t1 ++ dispatched t2.
Proof.
  induction t1 as [|[r|o] t1 IH]; cbn; congruence.
Qed.

Lemma set_reportReceived_same (p : Protocol) :
  set_reportReceived (reportReceived p) p = p.
Proof. now destruct p. Qed.

(** X3.  A read error that is neither EAGAIN nor one of the three framing
    errors ends a running loop at once: it returns with the state and the
    trace it had, so nothing is sent and nothing dispatched, and later
    results are not read. *)
Theorem other_read_error_ends_loop_silently
        (pre rest : list (Z * LoadResult)) (now : Z) (p : Protocol) :
  status (readOutputReport pre p) = Running ->
  readOutputReport (pre ++ (now, errOther) :: rest) p
    = mkRun Returned (state (readOutputReport pre p))
            (trace (readOutputReport pre p)) (S (length pre)).
Proof.
  intros Hrun. rewrite (readOutputReport_app _ _ _ Hrun).
  cbn. rewrite app_nil_r, (readOutputReport_running_reads _ _ Hrun).
  now rewrite Nat.add_1_r.
Qed.

Lemma other_read_error_ends_loop_silently_witness :
  let pre := [(1, EAGAIN); (2, Loaded (hostReport SetPlayerLights [1]))] in
  let rest := [(4, Loaded (hostReport RequestDeviceInfo []))] in
  status (readOutputReport pre NewProtocol) = Running /\
  readOutputReport (pre ++ (3, errOther) :: rest) NewProtocol
    = mkRun Returned (state (readOutputReport pre NewProtocol))
            (trace (readOutputReport pre NewProtocol)) 3.
Proof.
  intros pre rest.
  assert (H : status (readOutputReport pre NewProtocol) = Running)
    by reflexivity.
  split; [exact H|].
  exact (other_read_error_ends_loop_silently pre rest 3 NewProtocol H).
Defined.

(** X2.  Loads that yield EAGAIN or a report whose id is not
    [RumbleAndSubcommand] (the NFC and rumble-only reports, and unknown ids)
    keep the loop running, send nothing and never reach the dispatcher; all
    they do to the state is set [reportReceived] once a report was
    decoded. *)
Theorem frames_without_subcommand_are_ignored
        (inputs : list (Z * LoadResult)) (p : Protocol) :
  forallb (fun x => quiet (snd x)) inputs = true ->
  readOutputReport inputs p
    = mkRun Running
            (set_reportReceived
               (reportReceived p || existsb (fun x => isLoaded (snd x)) inputs)
               p)
            [] (length inputs).
Proof.
  revert p. induction inputs as [|[now res] inputs IH]; intros p Hq.
  - cbn. now rewrite orb_false_r, set_reportReceived_same.
  - cbn [forallb snd] in Hq. apply andb_prop in Hq as [Hres Hq].
    cbn [readOutputReport existsb snd length].
    destruct res as [o| | | | |]; try discriminate Hres.
    + cbn [quiet] in Hres. cbn [readOutputReport_body isLoaded].
      destruct (id o); try discriminate Hres;
        (unfold bind, modify, ret; cbn [app]; rewrite (IH _ Hq);
         destruct p; cbn; now rewrite ?orb_true_r).
    + cbn [readOutputReport_body ret isLoaded]. rewrite (IH _ Hq).
      reflexivity.
Qed.

Lemma frames_without_subcommand_are_ignored_witness :
  let inputs := [(1, EAGAIN);
                 (2, Loaded (mkOutputReport RumbleOnly EnableImu [1]));
                 (3, Loaded (mkOutputReport (UnknownOutputReportId 18)
                                            RequestDeviceInfo []))] in
  forallb (fun x : Z * LoadResult => quiet (snd x)) inputs = true /\
  readOutputReport inputs NewProtocol
    = mkRun Running (set_reportReceived true NewProtocol) [] 3.
Proof.
  intros inputs.
  assert (H : forallb (fun x : Z * LoadResult => quiet (snd x)) inputs = true)
    by reflexivity.
  split; [exact H|].
  exact (frames_without_subcommand_are_ignored inputs NewProtocol H).
Defined.

Lemma readOutputReport_body_reportReceived (now : Z) (res : LoadResult)
      (p p' : Protocol) (k : Flow) (t : list Event) :
  readOutputReport_body now res p = Ok (k, p', t) ->
  reportReceived p' = reportReceived p || isLoaded res.
Proof.
  intros H.
  destruct (readOutputReport_body_inv _ _ _ _ _ _ H)
    as [(-> & _ & -> & _)
       |[(Hf & _ & -> & _)
        |[(-> & _ & -> & _)
         |[(o & -> & _ & _ & -> & _)
          |(o & r & -> & _ & _ & Hrun & _)]]]]; cbn [isLoaded].
  - now rewrite orb_false_r.
  - destruct res; try discriminate Hf; now rewrite orb_false_r.
  - now rewrite orb_false_r.
  - destruct p; cbn. now rewrite orb_true_r.
  - destruct (processSubcommandReport_run now o (set_reportReceived true p)
                (processSubcommandReport_inv _ _ _ _ _ Hrun))
      as (q & r' & Hq & _ & _ & Hrr & _).
    rewrite Hq in Hrun. inversion Hrun; subst.
    rewrite Hrr. destruct p; cbn. now rewrite orb_true_r.
Qed.

(** In a turn that completes, a dispatch is always answered by its one
    send, and a turn that lets the loop go on sends nothing else. *)
Lemma readOutputReport_body_counts (now : Z) (res : LoadResult)
      (p p' : Protocol) (k : Flow) (t : list Event) :
  readOutputReport_body now res p = Ok (k, p', t) ->
  (length (dispatched t) <= length (sent t))%nat /\
  (length (sent t) <= 1)%nat /\
  (k = Continue -> length (sent t) = length (dispatched t)).
Proof.
  intros H.
  destruct (readOutputReport_body_inv _ _ _ _ _ _ H)
    as [(_ & -> & _ & ->)
       |[(_ & -> & _ & ->)
        |[(_ & -> & _ & ->)
         |[(o & _ & _ & -> & _ & ->)
          |(o & r & _ & _ & -> & _ & ->)]]]]; cbn;
    repeat split; try lia; discriminate.
Qed.

(** X1.  [reportReceived] records that a load has succeeded: after a run of
    the loop that did not panic it is its value before the run or'ed with
    whether one of the loads the loop issued yielded a decoded report,
    whatever the id of that report; errors and EAGAIN do not set it and
    nothing clears it. *)
Theorem reportReceived_after_run (inputs : list (Z * LoadResult)) (p : Protocol) :
  status (readOutputReport inputs p) <> Panicked ->
  reportReceived (state (readOutputReport inputs p))
    = reportReceived p
      || existsb (fun x => isLoaded (snd x))
                 (firstn (reads (readOutputReport inputs p)) inputs).
Proof.
  revert p. induction inputs as [|[now res] inputs IH]; intros p Hok.
  - cbn. now rewrite orb_false_r.
  - cbn [readOutputReport] in *.
    destruct (readOutputReport_body now res p) as [[[[|] p'] t]|] eqn:E;
      cbn [status state reads firstn existsb snd] in *.
    + rewrite (IH p' Hok), (readOutputReport_body_reportReceived _ _ _ _ _ _ E).
      now rewrite orb_assoc.
    + rewrite (readOutputReport_body_reportReceived _ _ _ _ _ _ E).
      now rewrite orb_false_r.
    + now contradiction Hok.
Qed.

Lemma reportReceived_after_run_witness :
  let inputs := [(1, EAGAIN);
                 (2, Loaded (mkOutputReport RumbleOnly EnableImu []));
                 (3, errMalformedData);
                 (4, Loaded (hostReport RequestDeviceInfo []))] in
  status (readOutputReport inputs NewProtocol) <> Panicked /\
  reads (readOutputReport inputs NewProtocol) = 3%nat /\
  reportReceived (state (readOutputReport inputs NewProtocol)) = true.
Proof.
  intros inputs.
  assert (H : status (readOutputReport inputs NewProtocol) <> Panicked)
    by (intros E; discriminate E).
  split; [exact H|]. split; [reflexivity|].
  exact (reportReceived_after_run inputs NewProtocol H).
Defined.

(** X5.  A run of the loop that did not panic has sent at most one report
    per load it issued and has issued at most one load per result; every
    call of the dispatcher was answered by a send; and while the loop is
    still running it has used up all the results and every send it made was
    the answer to a dispatch. *)
Theorem one_report_per_load (inputs : list (Z * LoadResult)) (p : Protocol) :
  status (readOutputReport inputs p) <> Panicked ->
  let r := readOutputReport inputs p in
  (length (sent (trace r)) <= reads r)%nat /\
  (reads r <= length inputs)%nat /\
  (length (dispatched (trace r)) <= length (sent (trace r)))%nat /\
  (status r = Running ->
   reads r = length inputs /\
   length (sent (trace r)) = length (dispatched (trace r))).
Proof.
  revert p. induction inputs as [|[now res] inputs IH]; intros p Hok.
  - cbn. repeat split; lia.
  - cbn [readOutputReport] in *.
    destruct (readOutputReport_body now res p) as [[[[|] p'] t]|] eqn:E;
      cbn [status state reads trace length] in *.
    + destruct (readOutputReport_body_counts _ _ _ _ _ _ E) as (H1 & H2 & H3).
      specialize (H3 eq_refl).
      destruct (IH p' Hok) as (I1 & I2 & I3 & I4). cbv zeta.
      cbn [status state reads trace].
      rewrite sent_app, dispatched_app, !length_app.
      split; [lia|]. split; [lia|]. split; [lia|].
      intros Hr. destruct (I4 Hr). split; lia.
    + destruct (readOutputReport_body_counts _ _ _ _ _ _ E) as (H1 & H2 & _).
      cbv zeta. cbn [status state reads trace].
      split; [lia|]. split; [lia|]. split; [lia|]. intros Hr. discriminate Hr.
    + now contradiction Hok.
Qed.

Lemma one_report_per_load_witness :
  let inputs := [(1, Loaded (hostReport RequestDeviceInfo []));
                 (2, EAGAIN);
                 (3, Loaded (hostReport (UnknownSubcommand 153) []));
                 (4, errEmptyData);
                 (5, Loaded (hostReport SetPlayerLights [1]))] in
  status (readOutputReport inputs NewProtocol) <> Panicked /\
  (length (sent (trace (readOutputReport inputs NewProtocol)))
   <= reads (readOutputReport inputs NewProtocol))%nat /\
  length (sent (trace (readOutputReport inputs NewProtocol))) = 3%nat /\
  length (dispatched (trace (readOutputReport inputs NewProtocol))) = 2%nat.
Proof.
  intros inputs.
  assert (H : status (readOutputReport inputs NewProtocol) <> Panicked)
    by (intros E; discriminate E).
  split; [exact H|].
  split; [exact (proj1 (one_report_per_load inputs NewProtocol H))|].
  split; reflexivity.
Defined.

(** ** Sequences of dispatches *)

(** A dispatch that completes has made its one send, of the shape its
    subcommand asks for. *)
Lemma processSubcommandReport_answers (now : Z) (report : OutputReport)
      (p p' : Protocol) (t : list Event) :
  processSubcommandReport now report p = Ok (tt, p', t) ->
  exists r, t = [EvDispatch report; EvSend r] /\ answers (now, report) r.
Proof.
  destruct report as [i s d], p as [lt e rr di im it ct mac].
  unfold answers, isSubcommandReply, isStandardFull.
  destruct s; cbn [snd getSubcommand recognized];
    try (intros H; cbv in H; inversion H; subst; eexists;
         (split; [reflexivity|]); cbn;
         repeat split; try discriminate; eauto; fail).
  - destruct d as [|b d]; [intros H; discriminate H|].
    run_engine. destruct (b =? 1); intros H; inversion H; subst;
      eexists; (split; [reflexivity|]); cbn;
      repeat split; try discriminate; eauto.
  - intros H. cbv in H. inversion H; subst. eexists.
    split; [reflexivity|]. exists im. reflexivity.
Qed.

Lemma processSubcommandReports_cons (now : Z) (report : OutputReport)
      (rs : list (Z * OutputReport)) (p p' : Protocol) (t : list Event) :
  processSubcommandReports ((now, report) :: rs) p = Ok (tt, p', t) ->
  exists p1 t1 t2,
    processSubcommandReport now report p = Ok (tt, p1, t1) /\
    processSubcommandReports rs p1 = Ok (tt, p', t2) /\
    t = t1 ++ t2.
Proof.
  cbn [processSubcommandReports]. intros H.
  apply bind_Ok in H as ([] & p1 & t1 & t2 & H1 & H2 & ->).
  exists p1, t1, t2. auto.
Qed.

Lemma processSubcommandReports_app (rs1 rs2 : list (Z * OutputReport)) :
  forall p p' t,
    processSubcommandReports (rs1 ++ rs2) p = Ok (tt, p', t) ->
    exists p1 t1 t2,
      processSubcommandReports rs1 p = Ok (tt, p1, t1) /\
      processSubcommandReports rs2 p1 = Ok (tt, p', t2) /\
      t = t1 ++ t2.
Proof.
  induction rs1 as [|[now report] rs1 IH]; intros p p' t H.
  - exists p, [], t. repeat split. exact H.
  - cbn [app] in H.
    apply processSubcommandReports_cons in H
      as (p1 & t1 & t2 & H1 & H2 & ->).
    destruct (IH _ _ _ H2) as (p2 & t3 & t4 & H3 & H4 & ->).
    exists p2, (t1 ++ t3), t4. repeat split; [|exact H4|apply app_assoc].
    cbn [processSubcommandReports]. unfold bind. now rewrite H1, H3.
Qed.

(** X6.  The replies follow the requests: a sequence of dispatches that
    completes has called the dispatcher on exactly the frames given, in
    order, and has sent exactly one report per frame, in the same order: a
    tagged reply with header and acknowledgment for a recognized
    subcommand, the plain standard report for any other. *)
Theorem replies_follow_requests (rs : list (Z * OutputReport))
        (p p' : Protocol) (t : list Event) :
  processSubcommandReports rs p = Ok (tt, p', t) ->
  dispatched t = map snd rs /\
  Forall2 answers rs (sent t).
Proof.
  revert p t. induction rs as [|[now report] rs IH]; intros p t H.
  - cbv in H. inversion H; subst. split; [reflexivity|constructor].
  - apply processSubcommandReports_cons in H
      as (p1 & t1 & t2 & H1 & H2 & ->).
    destruct (processSubcommandReport_answers _ _ _ _ _ H1) as (r & -> & Hr).
    destruct (IH _ _ H2) as [Hd Hs]. cbn [app dispatched sent map snd].
    split; [now rewrite Hd|now constructor].
Qed.

Lemma replies_follow_requests_witness :
  let rs := [(10, hostReport RequestDeviceInfo []);
             (20, hostReport (UnknownSubcommand 153) []);
             (30, hostReport SpiFlashRead [0; 96; 0; 0; 16])] in
  exists p' t,
    processSubcommandReports rs (Setup_fields 3 4 sampleMac NewProtocol)
      = Ok (tt, p', t) /\
    dispatched t = map snd rs /\
    Forall2 answers rs (sent t).
Proof.
  intros rs.
  destruct (processSubcommandReports rs (Setup_fields 3 4 sampleMac NewProtocol))
    as [[[[] p'] t]|] eqn:E; [|discriminate E].
  exists p', t. split; [reflexivity|].
  exact (replies_follow_requests rs _ p' t E).
Defined.

(** X12.  After a sequence of dispatches that completes, [lastTime] is the
    time at which the last of them was dispatched, whatever the subcommand
    was, recognized or not. *)
Theorem lastTime_is_last_dispatch (rs : list (Z * OutputReport)) (now : Z)
        (report : OutputReport) (p p' : Protocol) (t : list Event) :
  processSubcommandReports (rs ++ [(now, report)]) p = Ok (tt, p', t) ->
  lastTime p' = now.
Proof.
  intros H.
  apply processSubcommandReports_app in H as (p1 & t1 & t2 & _ & H2 & _).
  apply processSubcommandReports_cons in H2 as (p2 & t3 & t4 & H3 & H4 & _).
  cbv [processSubcommandReports ret] in H4.
  injection H4 as Hp _.
  destruct (processSubcommandReport_run now report p1
              (processSubcommandReport_inv _ _ _ _ _ H3))
    as (q & r & Hq & Hlt & _).
  rewrite Hq in H3. injection H3 as Hq' _.
  now rewrite <- Hp, <- Hq'.
Qed.

Lemma lastTime_is_last_dispatch_witness :
  exists p' t,
    processSubcommandReports
      ([(10, hostReport SetPlayerLights [1])]
         ++ [(25, hostReport (UnknownSubcommand 153) [])])
      NewProtocol = Ok (tt, p', t) /\
    lastTime p' = 25.
Proof.
  destruct (processSubcommandReports
              ([(10, hostReport SetPlayerLights [1])]
                 ++ [(25, hostReport (UnknownSubcommand 153) [])])
              NewProtocol) as [[[[] p'] t]|] eqn:E; [|discriminate E].
  exists p', t. split; [reflexivity|].
  exact (lastTime_is_last_dispatch _ 25 _ NewProtocol p' t E).
Defined.

Lemma processSubcommandReports_imu (rs : list (Z * OutputReport)) :
  forall p p' t,
    processSubcommandReports rs p = Ok (tt, p', t) ->
    imuEnabled p' = imuEnabled p || existsb setsImu rs.
Proof.
  induction rs as [|[now report] rs IH]; intros p p' t H.
  - cbv in H. inversion H; subst. now rewrite orb_false_r.
  - apply processSubcommandReports_cons in H
      as (p1 & t1 & t2 & H1 & H2 & _).
    destruct (processSubcommandReport_run now report p
                (processSubcommandReport_inv _ _ _ _ _ H1))
      as (q & r & Hq & _ & _ & _ & _ & Himu & _).
    rewrite Hq in H1. inversion H1; subst.
    rewrite (IH _ _ _ H2), Himu. cbn [existsb]. unfold setsImu at 2.
    cbn [snd]. now rewrite orb_assoc.
Qed.

Lemma step_imuEnabled (l : Label) (s s' : Sys) :
  step l s = Some s' ->
  imuEnabled (proto s) = true -> imuEnabled (proto s') = true.
Proof.
  intros H Himu. step_inv H; cbn [proto]; try assumption.
  match goal with
  | E : readOutputReport_body _ _ _ = Ok _ |- _ =>
      destruct (readOutputReport_body_inv _ _ _ _ _ _ E)
        as [(_ & _ & -> & _)
           |[(_ & _ & -> & _)
            |[(_ & _ & -> & _)
             |[(o & _ & _ & _ & -> & _)
              |(o & r & _ & _ & _ & Hrun & _)]]]]
  end; try assumption.
  destruct (processSubcommandReport_run (clock s) o
              (set_reportReceived true (proto s))
              (processSubcommandReport_inv _ _ _ _ _ Hrun))
    as (q & r' & Hq & _ & _ & _ & _ & Hi & _).
  rewrite Hq in Hrun. injection Hrun as <- _.
  rewrite Hi. change (imuEnabled (set_reportReceived true (proto s)))
    with (imuEnabled (proto s)). now rewrite Himu.
Qed.

(** X9.  The engine never clears [imuEnabled]: after a sequence of
    dispatches that completes the flag is its value before them or'ed with
    whether one of them was an [EnableImu] whose payload byte 0 is 1, and no
    action of any goroutine takes it from true to false. *)
Theorem imuEnabled_never_cleared :
  (forall rs p p' t,
      processSubcommandReports rs p = Ok (tt, p', t) ->
      imuEnabled p' = imuEnabled p || existsb setsImu rs) /\
  (forall l s s',
      step l s = Some s' ->
      imuEnabled (proto s) = true -> imuEnabled (proto s') = true).
Proof.
  split; [exact processSubcommandReports_imu|exact step_imuEnabled].
Qed.

Lemma imuEnabled_never_cleared_witness :
  let rs := [(10, hostReport EnableImu [1]);
             (20, hostReport EnableImu [0]);
             (30, hostReport EnableVibration [0])] in
  exists p' t,
    processSubcommandReports rs NewProtocol = Ok (tt, p', t) /\
    imuEnabled p' = true.
Proof.
  intros rs.
  destruct (processSubcommandReports rs NewProtocol)
    as [[[[] p'] t]|] eqn:E; [|discriminate E].
  exists p', t. split; [reflexivity|].
  exact (proj1 imuEnabled_never_cleared rs NewProtocol p' t E).
Defined.

(** X8.  Only [SpiFlashRead] and [EnableImu] look at the payload of their
    frame.  For every other subcommand, recognized or not, the state left
    behind and the report sent are the same for any two payloads (and any
    two report ids); the reply to a [SpiFlashRead] carries the payload it
    was given, so different payloads get different replies. *)
Theorem payload_is_used_only_by_SpiFlashRead_and_EnableImu
        (now : Z) (s : Subcommand) (p : Protocol) :
  (s <> SpiFlashRead -> s <> EnableImu ->
   forall i1 i2 d1 d2,
     outcome (processSubcommandReport now (mkOutputReport i1 s d1) p)
       = outcome (processSubcommandReport now (mkOutputReport i2 s d2) p)) /\
  (forall i d,
      exists p' r,
        outcome (processSubcommandReport now (mkOutputReport i SpiFlashRead d) p)
          = Some (p', [r]) /\
        ackData r = Some (ackSpiFlashRead d)).
Proof.
  split.
  - intros H1 H2 i1 i2 d1 d2.
    destruct s; try reflexivity; [now contradiction H1|now contradiction H2].
  - intros i d. do 2 eexists. split; reflexivity.
Qed.

Lemma payload_is_used_only_by_SpiFlashRead_and_EnableImu_witness :
  SetInputReportMode <> SpiFlashRead /\
  SetInputReportMode <> EnableImu /\
  outcome (processSubcommandReport
             10 (mkOutputReport RumbleAndSubcommand SetInputReportMode [48])
             NewProtocol)
    = outcome (processSubcommandReport
                 10 (mkOutputReport RumbleAndSubcommand SetInputReportMode [63; 1])
                 NewProtocol).
Proof.
  assert (H1 : SetInputReportMode <> SpiFlashRead) by (intros E; discriminate E).
  assert (H2 : SetInputReportMode <> EnableImu) by (intros E; discriminate E).
  split; [exact H1|]. split; [exact H2|].
  exact (proj1 (payload_is_used_only_by_SpiFlashRead_and_EnableImu
                  10 SetInputReportMode NewProtocol)
               H1 H2 RumbleAndSubcommand RumbleAndSubcommand [48] [63; 1]).
Defined.

(** ** Invariants of the goroutines *)

Lemma readOutputReport_body_reports (now : Z) (res : LoadResult)
      (p p' : Protocol) (k : Flow) (t : list Event) :
  readOutputReport_body now res p = Ok (k, p', t) ->
  Forall engineReport (sent t) /\ (length (sent t) <= 1)%nat.
Proof.
  intros H. split; [|exact (proj1 (proj2 (readOutputReport_body_counts
                                            _ _ _ _ _ _ H)))].
  destruct (readOutputReport_body_inv _ _ _ _ _ _ H)
    as [(_ & _ & _ & ->)
       |[(_ & _ & _ & ->)
        |[(_ & _ & _ & ->)
         |[(o & _ & _ & _ & _ & ->)
          |(o & r & _ & _ & _ & Hrun & ->)]]]]; cbn [sent];
    repeat apply Forall_cons; try apply Forall_nil.
  - right. eexists. reflexivity.
  - destruct (processSubcommandReport_answers _ _ _ _ _ Hrun)
      as (r' & Ht & Hans).
    injection Ht as <-. unfold answers in Hans. cbn [snd] in Hans.
    destruct (recognized (getSubcommand o)); [left|right]; exact Hans.
Qed.

Lemma readOutputReport_body_setup (now : Z) (res : LoadResult)
      (p p' : Protocol) (k : Flow) (t : list Event) :
  readOutputReport_body now res p = Ok (k, p', t) ->
  itr p' = itr p /\ ctrl p' = ctrl p /\ macAddr p' = macAddr p.
Proof.
  intros H.
  destruct (readOutputReport_body_inv _ _ _ _ _ _ H)
    as [(_ & _ & -> & _)
       |[(_ & _ & -> & _)
        |[(_ & _ & -> & _)
         |[(o & _ & _ & _ & -> & _)
          |(o & r & _ & _ & _ & Hrun & _)]]]]; try (repeat split; fail).
  destruct (processSubcommandReport_run now o (set_reportReceived true p)
              (processSubcommandReport_inv _ _ _ _ _ Hrun))
    as (q & r' & Hq & _ & _ & _ & _ & _ & Hi & Hc & Hm & _).
  rewrite Hq in Hrun. injection Hrun as <- _. auto.
Qed.

(** What a turn of the loop does to the timer: nothing, or the refresh of a
    dispatch. *)
Lemma readOutputReport_body_timer (now : Z) (res : LoadResult)
      (p p' : Protocol) (k : Flow) (t : list Event) :
  readOutputReport_body now res p = Ok (k, p', t) ->
  (elapsed p' = elapsed p /\ lastTime p' = lastTime p) \/
  (elapsed p' = 255 /\ lastTime p' = now).
Proof.
  intros H.
  destruct (readOutputReport_body_inv _ _ _ _ _ _ H)
    as [(_ & _ & -> & _)
       |[(_ & _ & -> & _)
        |[(_ & _ & -> & _)
         |[(o & _ & _ & _ & -> & _)
          |(o & r & _ & _ & _ & Hrun & _)]]]];
    try (left; split; reflexivity).
  destruct (processSubcommandReport_run now o (set_reportReceived true p)
              (processSubcommandReport_inv _ _ _ _ _ Hrun))
    as (q & r' & Hq & Hlt & He & _).
  rewrite Hq in Hrun. injection Hrun as Hqp _.
  right. rewrite <- Hqp. auto.
Qed.

Lemma step_setupInv (i c : Z) (mac : list Z) (l : Label) (s s' : Sys) :
  step l s = Some s' -> setupInv i c mac s -> setupInv i c mac s'.
Proof.
  unfold setupInv. intros H Hinv.
  step_inv H; cbn [proto]; try assumption.
  match goal with
  | E : readOutputReport_body _ _ _ = Ok _ |- _ =>
      destruct (readOutputReport_body_setup _ _ _ _ _ _ E) as (-> & -> & ->)
  end. assumption.
Qed.

Lemma step_timerInv (l : Label) (s s' : Sys) :
  step l s = Some s' -> timerInv s -> timerInv s'.
Proof.
  unfold timerInv. intros H [He Hlt].
  step_inv H; cbn [proto clock];
    repeat match goal with
           | E : (0 <=? _) = true |- _ => apply Z.leb_le in E
           | E : readOutputReport_body _ _ _ = Ok _ |- _ =>
               destruct (readOutputReport_body_timer _ _ _ _ _ _ E)
                 as [[-> ->]|[-> ->]]; clear E
           end;
    split; auto; lia.
Qed.

Lemma Forall_snoc {A} (P : A -> Prop) (l : list A) (x : A) :
  Forall P l -> P x -> Forall P (l ++ [x]).
Proof.
  intros Hl Hx. apply Forall_app. split; [exact Hl|now constructor].
Qed.

Lemma step_reportsInv (l : Label) (s s' : Sys) :
  step l s = Some s' -> reportsInv s -> reportsInv s'.
Proof.
  unfold reportsInv. intros H (Hq & He & Hw & Hb & Hr & Hn).
  step_inv H;
    cbn [queue enqueued written boot reader pendingBoot pendingReader sent
         length] in *;
    repeat match goal with
           | E : boot s = _ |- _ => rewrite E in Hb; cbn [pendingBoot] in Hb
           | E : reader s = _ |- _ =>
               rewrite E in Hr, Hn; cbn [pendingReader length] in Hr, Hn
           | E : queue s = _ |- _ => rewrite E in Hq
           | E : readOutputReport_body _ _ _ = Ok _ |- _ =>
               apply readOutputReport_body_reports in E; destruct E
           | E : Forall _ (_ :: _) |- _ => inversion E; subst; clear E
           end;
    rewrite ?map_app; cbn [map fst snd];
    repeat split;
    auto using Forall_snoc, Forall_nil, Forall_cons; try lia;
    try (apply Forall_cons; [right; eexists; reflexivity|apply Forall_nil]).
Qed.

(** X7.  What [Setup] stored is never changed: in every state the
    goroutines reach, the two handles and the MAC address are the ones given
    to [Setup].  So a [RequestDeviceInfo] frame read in any such state is
    answered by one reply, tagged [SubcommandReplies], whose acknowledgment
    carries that MAC address and whose header has [deviceInfoRequired]
    already true. *)
Theorem setup_values_are_kept
        (now i c : Z) (mac : list Z) (s0 : Sys) (ls : list Label) (s : Sys) :
  Setup true now i c mac NewProtocol = Some s0 ->
  exec ls s0 = Some s ->
  itr (proto s) = i /\
  ctrl (proto s) = c /\
  macAddr (proto s) = mac /\
  (forall data,
      reader s = ReaderLoop ->
      exists s' r,
        step (ReaderLoad (Loaded (hostReport RequestDeviceInfo data))) s
          = Some s' /\
        reader s' = ReaderSending [r] Continue /\
        reportId r = Some SubcommandReplies /\
        standardData r = Some (255, true) /\
        ackData r = Some (ackDeviceInfo mac) /\
        deviceInfoRequired (proto s') = true).
Proof.
  intros Hs0 Hexec.
  cbv [Setup] in Hs0. injection Hs0 as <-.
  assert (Hinv : setupInv i c mac s).
  { apply (exec_invariant (setupInv i c mac) (step_setupInv i c mac)
                          ls _ s Hexec).
    repeat split. }
  destruct Hinv as (Hi & Hc & Hm).
  split; [exact Hi|]. split; [exact Hc|]. split; [exact Hm|].
  intros data Hr.
  rewrite step_alive by (rewrite Hr; discriminate).
  unfold stepAlive, stepReader. rewrite Hr.
  do 2 eexists. split; [reflexivity|]. cbn.
  rewrite Hm. repeat split.
Qed.

Lemma setup_values_are_kept_witness :
  exists s0 s,
    Setup true 0 3 4 sampleMac NewProtocol = Some s0 /\
    exec fullQueueSchedule s0 = Some s /\
    itr (proto s) = 3 /\ ctrl (proto s) = 4 /\ macAddr (proto s) = sampleMac.
Proof.
  pose (s0 := mkSys (Setup_fields 3 4 sampleMac NewProtocol) [] 0
                    BootStart ReaderLoop [] []).
  assert (H0 : Setup true 0 3 4 sampleMac NewProtocol = Some s0)
    by reflexivity.
  destruct (exec fullQueueSchedule s0) as [s|] eqn:E;
    [|vm_compute in E; discriminate E].
  exists s0, s. split; [exact H0|]. split; [exact E|].
  pose proof (setup_values_are_kept 0 3 4 sampleMac s0 fullQueueSchedule s
                                    H0 E) as (Hi & Hc & Hm & _).
  split; [exact Hi|]. split; [exact Hc|exact Hm].
Defined.

(** X10.  The timer stays sane.  For a [Setup] made at a time not before
    the zero Time, in every state the goroutines reach [elapsed] is 0 (no
    refresh yet) or 255, so it fits 8 bits; [lastTime] is not later than the
    clock, which has not gone back behind the time of [Setup]; hence the
    duration the next refresh would compute is not negative. *)
Theorem timer_stays_sane
        (now i c : Z) (mac : list Z) (s0 : Sys) (ls : list Label) (s : Sys) :
  0 <= now ->
  Setup true now i c mac NewProtocol = Some s0 ->
  exec ls s0 = Some s ->
  (elapsed (proto s) = 0 \/ elapsed (proto s) = 255) /\
  0 <= elapsed (proto s) <= 255 /\
  lastTime (proto s) <= clock s /\
  now <= clock s /\
  0 <= Time.Sub (clock s) (lastTime (proto s)).
Proof.
  intros Hnow Hs0 Hexec.
  cbv [Setup] in Hs0. injection Hs0 as <-.
  assert (Hinv : timerInv s /\ now <= clock s).
  { apply (exec_invariant (fun s => timerInv s /\ now <= clock s)) with
        (ls := ls) (s := mkSys (Setup_fields i c mac NewProtocol) [] now
                               BootStart ReaderLoop [] []);
      [|exact Hexec|].
    - intros l s1 s2 Hstep [Ht Hc]. split; [eapply step_timerInv; eauto|].
      step_inv Hstep; cbn [clock]; try assumption.
      all: match goal with
           | E : (0 <=? _) = true |- _ => apply Z.leb_le in E; lia
           end.
    - unfold timerInv. cbn. repeat split; auto; lia. }
  destruct Hinv as [[He Hlt] Hclk].
  split; [exact He|]. split; [destruct He as [-> | ->]; lia|].
  split; [exact Hlt|]. split; [exact Hclk|].
  unfold Time.Sub, Time.minDuration, Time.maxDuration.
  destruct (clock s - lastTime (proto s) <? - 2 ^ 63) eqn:E1.
  - apply Z.ltb_lt in E1. lia.
  - destruct (2 ^ 63 - 1 <? clock s - lastTime (proto s)); lia.
Qed.

Lemma timer_stays_sane_witness :
  exists s0 s,
    0 <= 0 /\
    Setup true 0 3 4 sampleMac NewProtocol = Some s0 /\
    exec bootThenDeviceInfo s0 = Some s /\
    elapsed (proto s) = 255 /\
    lastTime (proto s) <= clock s.
Proof.
  pose (s0 := mkSys (Setup_fields 3 4 sampleMac NewProtocol) [] 0
                    BootStart ReaderLoop [] []).
  assert (H0 : Setup true 0 3 4 sampleMac NewProtocol = Some s0)
    by reflexivity.
  assert (Hnow : 0 <= 0) by lia.
  destruct (exec bootThenDeviceInfo s0) as [s|] eqn:E;
    [|vm_compute in E; discriminate E].
  exists s0, s. split; [exact Hnow|]. split; [exact H0|]. split; [exact E|].
  pose proof (timer_stays_sane 0 3 4 sampleMac s0 bootThenDeviceInfo s
                               Hnow H0 E) as (_ & _ & Hlt & _).
  split; [|exact Hlt].
  vm_compute in E. inversion E. reflexivity.
Defined.

(** X11.  Nothing but the engine's two kinds of report ever travels through
    the channel.  In every reachable state each report that is pending in
    the channel, that was ever put into it, that was taken out by the
    writer, or that a producer is about to send, is either a reply of a
    handler (tagged [SubcommandReplies], with header and acknowledgment and
    without motion-sensor data, even when [imuEnabled] is set) or the plain
    report of [processStandardFullReport] (tagged [StandardFullMode], with
    the motion-sensor field and nothing else); and a turn of the reader has
    at most one report to send. *)
Theorem only_engine_reports_are_queued (s : Sys) :
  reachable s ->
  Forall engineReport (queue s) /\
  Forall engineReport (map snd (enqueued s)) /\
  Forall engineReport (map fst (written s)) /\
  Forall engineReport (pendingBoot (boot s)) /\
  Forall engineReport (pendingReader (reader s)) /\
  (length (pendingReader (reader s)) <= 1)%nat.
Proof.
  intros (now & i & c & mac & s0 & ls & Hs0 & Hexec).
  apply (exec_invariant reportsInv step_reportsInv ls s0 s Hexec).
  cbv [Setup] in Hs0. injection Hs0 as <-.
  unfold reportsInv. cbn. repeat split; auto.
Qed.

Lemma only_engine_reports_are_queued_witness :
  exists s,
    reachable s /\
    length (queue s) = 5%nat /\
    Forall engineReport (queue s).
Proof.
  pose (s0 := mkSys (Setup_fields 3 4 sampleMac NewProtocol) [] 0
                    BootStart ReaderLoop [] []).
  destruct (exec fullQueueSchedule s0) as [s|] eqn:E;
    [|vm_compute in E; discriminate E].
  assert (R : reachable s).
  { exists 0, 3, 4, sampleMac, s0, fullQueueSchedule.
    split; [reflexivity|exact E]. }
  exists s. split; [exact R|]. split.
  - vm_compute in E. inversion E. reflexivity.
  - exact (proj1 (only_engine_reports_are_queued s R)).
Defined.

(** X13.  The writer alone empties the channel.  While the process runs,
    as many writes as there are pending reports take them out oldest first
    and leave the channel empty, each report recorded once with the result
    of its write; a write that fails drops its report like one that
    succeeds, nothing is put back and nothing else changes.  On an empty
    channel the writer has nothing to do. *)
Theorem writer_drains_queue (s : Sys) (oks : list bool) :
  (queue s = [] -> forall ok, step (WriterWrite ok) s = None) /\
  (reader s <> ReaderPanicked ->
   length oks = length (queue s) ->
   exec (map WriterWrite oks) s
     = Some (mkSys (proto s) [] (clock s) (boot s) (reader s) (enqueued s)
                   (written s ++ combine (queue s) oks))).
Proof.
  split.
  - intros Hq ok. unfold step, stepAlive, stepWriter. rewrite Hq.
    now destruct (reader s).
  - revert s. induction oks as [|ok oks IH]; intros s Halive Hlen.
    + destruct s as [pr q cl b rd en wr]. cbn in *.
      destruct q; [|discriminate Hlen]. now rewrite app_nil_r.
    + destruct (queue s) as [|r q] eqn:Eq; [discriminate Hlen|].
      cbn [map exec]. rewrite (step_alive _ _ Halive).
      unfold stepAlive, stepWriter. rewrite Eq.
      rewrite IH; cbn [reader queue proto clock boot enqueued written combine];
        [|exact Halive|now injection Hlen].
      now rewrite <- app_assoc.
Qed.

Lemma writer_drains_queue_witness :
  exists s s',
    reachable s /\
    reader s <> ReaderPanicked /\
    length [true; false; true; true; false] = length (queue s) /\
    exec (map WriterWrite [true; false; true; true; false]) s = Some s' /\
    queue s' = [] /\
    length (written s') = 5%nat.
Proof.
  pose (s0 := mkSys (Setup_fields 3 4 sampleMac NewProtocol) [] 0
                    BootStart ReaderLoop [] []).
  destruct (exec fullQueueSchedule s0) as [s|] eqn:E;
    [|vm_compute in E; discriminate E].
  assert (R : reachable s).
  { exists 0, 3, 4, sampleMac, s0, fullQueueSchedule.
    split; [reflexivity|exact E]. }
  vm_compute in E. injection E as E.
  assert (Halive : reader s <> ReaderPanicked)
    by (rewrite <- E; intros H; discriminate H).
  assert (Hlen : length [true; false; true; true; false] = length (queue s))
    by (rewrite <- E; reflexivity).
  eexists s, _. split; [exact R|]. split; [exact Halive|].
  split; [exact Hlen|].
  split; [exact (proj2 (writer_drains_queue
                          s [true; false; true; true; false]) Halive Hlen)|].
  split; [reflexivity|]. rewrite <- E. reflexivity.
Defined.
